(** * verify.ts of hardhat-ignition: a shallow embedding and its properties

    The development follows [packages/core/src/verify.ts].  JavaScript
    objects used as dictionaries ([sources], [libraries], [linkReferences])
    are finite maps of their own properties, and the enumeration order of
    keys is the order of the map, not the insertion order of the object (no
    result below depends on it, apart from which of several missing
    libraries an error message names).  In the library resolver a property
    read goes on from the own properties to [Object.prototype], and a write
    under [__proto__] stores nothing ([getProperty], [setProperty]);
    elsewhere a property read is a lookup of an own property.
    Exceptions are an explicit [Throw]; the unbounded recursion of
    [getImportSourceNames] is bounded by fuel, and [OutOfFuel] stands for a
    call that has not returned.  Objects that the code mutates in place (the
    [BuildInfo] a loader hands out) live in a store and are passed by
    reference. *)

From stdpp Require Import gmap strings list fin_maps.
From Stdlib Require Import ZArith Ascii.

Open Scope Z_scope.

(** ** Errors and outcomes *)

(** The [ERRORS.VERIFY] entries of the errors list that verify.ts raises. *)
Inductive VerifyErrorCode :=
| UNINITIALIZED_DEPLOYMENT (deploymentDir : string)
| UNSUPPORTED_CHAIN (chainId : Z)
| NO_CONTRACTS_DEPLOYED (deploymentDir : string).

Inductive Error :=
| IgnitionError (code : VerifyErrorCode)
| IgnitionInvariantError (message : string) (* assertIgnitionInvariant *)
| TypeError                                 (* property read on undefined *)
| ExternalError (message : string).         (* raised by a collaborator *)

Inductive outcome (A : Type) :=
| Ret (a : A)
| Throw (e : Error)
| OutOfFuel.
Arguments Ret {A} a.
Arguments Throw {A} e.
Arguments OutOfFuel {A}.

Definition obind {A B} (m : outcome A) (k : A → outcome B) : outcome B :=
  match m with
  | Ret a => k a
  | Throw e => Throw e
  | OutOfFuel => OutOfFuel
  end.

Declare Scope outcome_scope.
Delimit Scope outcome_scope with outcome.
Notation "x ←! m ; k" := (obind m (λ x, k))
  (at level 100, m at next level, right associativity,
   format "x  ←!  m ;  '/' k") : outcome_scope.
Open Scope outcome_scope.

(** [xs.map(f)] / [xs.flatMap(f)] for an [f] that may throw: left to right,
    the first failure ends the traversal. *)
Definition omapM {A B} (f : A → outcome B) : list A → outcome (list B) :=
  fix go (l : list A) : outcome (list B) :=
    match l with
    | [] => Ret []
    | x :: l' => y ←! f x; ys ←! go l'; Ret (y :: ys)
    end.

Definition assertIgnitionInvariant (invariant : bool) (description : string)
  : outcome unit :=
  if invariant then Ret tt else Throw (IgnitionInvariantError description).

(** ** Node's [path] module (POSIX flavour)

    [path] is part of the Node.js runtime, not of the repository.  The
    closure resolver below takes the two functions it calls as parameters;
    this module is the instance for [path.posix], used for the worked
    examples.  A path is normalised segment by segment: empty segments and
    [.] are dropped, [..] removes the segment before it when there is one
    that is not itself [..], and is kept otherwise when the path is
    relative. *)
Module posix.

Fixpoint split (s : string) : list string :=
  match s with
  | EmptyString => [EmptyString]
  | String c r =>
      if Ascii.eqb c "/" then EmptyString :: split r
      else match split r with
           | h :: t => String c h :: t
           | [] => [String c EmptyString]
           end
  end.

Fixpoint joinWith (sep : string) (segs : list string) : string :=
  match segs with
  | [] => ""
  | [s] => s
  | s :: rest => s +:+ sep +:+ joinWith sep rest
  end.

(** One segment of [normalizeString]; [res] holds the kept segments, last
    one first. *)
Definition normalizeStep (allowAboveRoot : bool) (res : list string)
    (seg : string) : list string :=
  if String.eqb seg "" || String.eqb seg "." then res
  else if String.eqb seg ".." then
    match res with
    | last :: before =>
        if String.eqb last ".." then
          (if allowAboveRoot then ".." :: res else res)
        else before
    | [] => if allowAboveRoot then [".."] else []
    end
  else seg :: res.

Definition normalizeString (path : string) (allowAboveRoot : bool) : string :=
  joinWith "/" (rev (fold_left (normalizeStep allowAboveRoot) (split path) [])).

Definition startsWithSlash (path : string) : bool :=
  match path with
  | String c _ => Ascii.eqb c "/"
  | EmptyString => false
  end.

Fixpoint endsWithSlash (path : string) : bool :=
  match path with
  | EmptyString => false
  | String c EmptyString => Ascii.eqb c "/"
  | String _ r => endsWithSlash r
  end.

Definition normalize (path : string) : string :=
  if String.eqb path "" then "."
  else
    let isAbsolute := startsWithSlash path in
    let trailingSeparator := endsWithSlash path in
    let p := normalizeString path (negb isAbsolute) in
    if String.eqb p "" then
      (if isAbsolute then "/" else if trailingSeparator then "./" else ".")
    else
      let p := if trailingSeparator then p +:+ "/" else p in
      if isAbsolute then "/" +:+ p else p.

(** [path.join(...args)]: the non-empty arguments glued with [/], then
    normalised. *)
Definition join (args : list string) : string :=
  match filter (λ a, a ≠ "") args with
  | [] => "."
  | parts => normalize (joinWith "/" parts)
  end.

(** The backwards scan of [dirname]: [chars] are the characters at
    indices [i], [i-1], ..., 1 (index 0 is never inspected). *)
Fixpoint dirnameScan (chars : list ascii) (i : nat) (matchedSlash : bool)
  : option nat :=
  match chars with
  | [] => None
  | c :: rest =>
      if Ascii.eqb c "/" then
        (if matchedSlash then dirnameScan rest (Nat.pred i) matchedSlash
         else Some i)
      else dirnameScan rest (Nat.pred i) false
  end.

Definition dirname (path : string) : string :=
  match path with
  | EmptyString => "."
  | String c0 tail =>
      let hasRoot := Ascii.eqb c0 "/" in
      match dirnameScan (rev (String.list_ascii_of_string tail))
              (String.length tail) true with
      | None => if hasRoot then "/" else "."
      | Some e =>
          if hasRoot && Nat.eqb e 1 then "//"
          else String.substring 0 e path
      end
  end.

End posix.


(** ** Data model *)

(** types/verify.ts *)
Record ChainConfig := {
  network : string;
  chainId : Z;
  apiURL : string;
  browserURL : string;
}.

(** What [resolveLibraryInfoForArtifact] stores under a library name: the
    value that [libraries[libName]] read.  It is the address, a string, when
    [libraries] has the name as an own property; it is a member of
    [Object.prototype] (a function, or for [__proto__] that object itself)
    when the read found the name there instead.  [JSON.stringify] leaves
    such a member out. *)
Inductive JsValue :=
| JsString (s : string)
| JsInherited (member : string).

Abbreviation SourceToLibraryToAddress := (gmap string (gmap string JsValue)).

(** types/artifact.ts.  The settings that verify.ts neither reads nor writes
    (optimizer, outputSelection, evmVersion, ...) are kept as one opaque
    value. *)
Record Source := { content : string }.

Record CompilerSettings := {
  libraries : option SourceToLibraryToAddress;
  otherSettings : string;
}.

Record CompilerInput := {
  language : string;
  sources : gmap string Source;
  settings : CompilerSettings;
}.

Record BuildInfo := {
  solcLongVersion : string;
  input : CompilerInput;
}.

Record LinkReference := { refStart : Z; refLength : Z }.

Record Artifact := {
  artifactContractName : string;
  sourceName : string;
  abi : string;
  bytecode : string;
  linkReferences : gmap string (gmap string (list LinkReference));
}.

(** internal/execution/types.  Each enum is a module, so that its members
    are written as in the source ([ExecutionStatus.SUCCESS],
    [ExecutionResultType.SUCCESS]). *)
Module ExecutionStatus.
Inductive t := STARTED | TIMEOUT | SUCCESS | HELD | FAILED.
End ExecutionStatus.

Module ExecutionSateType.
Inductive t :=
| DEPLOYMENT_EXECUTION_STATE
| CALL_EXECUTION_STATE
| STATIC_CALL_EXECUTION_STATE
| ENCODE_FUNCTION_CALL_EXECUTION_STATE
| CONTRACT_AT_EXECUTION_STATE
| READ_EVENT_ARGUMENT_EXECUTION_STATE
| SEND_DATA_EXECUTION_STATE.
End ExecutionSateType.

Module ExecutionResultType.
Inductive t :=
| SUCCESS
| SIMULATION_ERROR
| STRATEGY_SIMULATION_ERROR
| REVERTED_TRANSACTION
| STATIC_CALL_ERROR
| STRATEGY_ERROR
| STRATEGY_HELD.
End ExecutionResultType.

(** [result.address] is read only after [result.type] was seen to be
    SUCCESS. *)
Record DeploymentExecutionResult := {
  resultType : ExecutionResultType.t;
  resultAddress : string;
}.

Record DeploymentExecutionState := {
  id : string;
  status : ExecutionStatus.t;
  artifactId : string;
  contractName : string;
  constructorArgs : list string;
  exLibraries : gmap string string;
  result : option DeploymentExecutionResult;
}.

Inductive ExecutionState :=
| DeploymentExState (exState : DeploymentExecutionState)
| OtherExState (type : ExecutionSateType.t) (otherId : string)
    (otherStatus : ExecutionStatus.t).

Definition exStateType (exState : ExecutionState) : ExecutionSateType.t :=
  match exState with
  | DeploymentExState _ => ExecutionSateType.DEPLOYMENT_EXECUTION_STATE
  | OtherExState t _ _ => t
  end.

(** The execution states are listed in the order in which
    [Object.values(deploymentState.executionStates)] enumerates them. *)
Record DeploymentState := {
  stateChainId : Z;
  executionStates : list ExecutionState;
}.

Record VerifyInfo := {
  address : string;
  compilerVersion : string;
  sourceCode : CompilerInput; (* the value handed to JSON.stringify *)
  name : string;
  args : string;
}.

Definition VerifyResult : Type := ChainConfig * VerifyInfo.

#[global] Instance ExecutionStatus_eq_dec : EqDecision ExecutionStatus.t.
Proof. solve_decision. Defined.
#[global] Instance ExecutionSateType_eq_dec : EqDecision ExecutionSateType.t.
Proof. solve_decision. Defined.
#[global] Instance ExecutionResultType_eq_dec : EqDecision ExecutionResultType.t.
Proof. solve_decision. Defined.

(** ** The store of [BuildInfo] objects

    A [BuildInfo] handed out by the loader is a JavaScript object: verify.ts
    holds a reference to it and writes through that reference.  [InputOf b]
    is the reference to the [input] object of the [BuildInfo] at [b]
    ([const { input } = buildInfo]).  An object is stored together with its
    [input], settings and sources: these belong to one [BuildInfo] object
    and to no other, as is the case for objects that come out of a parse;
    two references meet in the same [input] exactly when they are
    references to the same [BuildInfo]. *)
Abbreviation loc := positive.
Abbreviation Store := (gmap loc BuildInfo).

Inductive InputRef := InputOf (buildInfo : loc).

Definition M (A : Type) : Type := Store → outcome A * Store.

Definition mret {A} (a : A) : M A := λ σ, (Ret a, σ).

Definition mbind {A B} (m : M A) (k : A → M B) : M B :=
  λ σ, match m σ with
       | (Ret a, σ') => k a σ'
       | (Throw e, σ') => (Throw e, σ')
       | (OutOfFuel, σ') => (OutOfFuel, σ')
       end.

Definition liftO {A} (o : outcome A) : M A := λ σ, (o, σ).

Notation "x ←$ m ; k" := (mbind m (λ x, k))
  (at level 100, m at next level, right associativity,
   format "x  ←$  m ;  '/' k") : outcome_scope.

(** Reading a property of an object that is not there is a TypeError. *)
Definition deref (buildInfo : loc) : M BuildInfo :=
  λ σ, match σ !! buildInfo with
       | Some bi => (Ret bi, σ)
       | None => (Throw TypeError, σ)
       end.

Definition derefInput (r : InputRef) : M CompilerInput :=
  let 'InputOf b := r in bi ←$ deref b; mret (input bi).

Definition updateInput (r : InputRef) (f : CompilerInput → CompilerInput)
  : M unit :=
  let 'InputOf b := r in
  λ σ, match σ !! b with
       | Some bi =>
           (Ret tt,
            <[b := {| solcLongVersion := solcLongVersion bi;
                      input := f (input bi) |}]> σ)
       | None => (Throw TypeError, σ)
       end.

(** [input.settings.libraries = v] *)
Definition setSettingsLibraries (v : SourceToLibraryToAddress)
    (inp : CompilerInput) : CompilerInput :=
  {| language := language inp;
     sources := sources inp;
     settings := {| libraries := Some v;
                    otherSettings := otherSettings (settings inp) |} |}.

Definition setSources (v : gmap string Source) (inp : CompilerInput)
  : CompilerInput :=
  {| language := language inp; sources := v; settings := settings inp |}.

(** The collaborator behind [deploymentLoader]: [readBuildInfo] yields a
    reference to a [BuildInfo] object (and may create that object),
    [loadArtifact] yields an artifact value. *)
Record DeploymentLoader := {
  readBuildInfo : string → M loc;
  loadArtifact : string → outcome Artifact;
}.

(** Modelled from the spec: the deployment loader, whose code
    (FileDeploymentLoader) lies outside verify.ts.  The persisted build
    infos and artifacts are immutable, and every input is a snapshot loaded
    for the record that asks for it: [readBuildInfo] parses the stored build
    info, which yields an object that did not exist before, whatever was
    read earlier; it fails when nothing is stored under the id. *)
Definition reparsingLoader (stored : string → outcome BuildInfo)
    (artifacts : string → outcome Artifact) : DeploymentLoader :=
  {| readBuildInfo := λ artifactId σ,
       match stored artifactId with
       | Ret parsed =>
           let b := fresh (dom σ) in (Ret b, <[b := parsed]> σ)
       | Throw e => (Throw e, σ)
       | OutOfFuel => (OutOfFuel, σ)
       end;
     loadArtifact := artifacts |}.

(** ** Property reads and writes of the JavaScript runtime *)

(** The names of the properties of [Object.prototype]. *)
Definition objectPrototypeMembers : list string :=
  ["constructor"; "__defineGetter__"; "__defineSetter__"; "hasOwnProperty";
   "__lookupGetter__"; "__lookupSetter__"; "isPrototypeOf";
   "propertyIsEnumerable"; "toString"; "valueOf"; "__proto__";
   "toLocaleString"].

(** The result of [object[key]] on an object whose prototype is
    [Object.prototype]: an own property, or else the member of
    [Object.prototype] of that name, or else [undefined]. *)
Inductive PropertyRead (A : Type) :=
| Own (a : A)
| Inherited (member : string)
| Undefined.
Arguments Own {A} a.
Arguments Inherited {A} member.
Arguments Undefined {A}.

Definition getProperty {A} (object : gmap string A) (key : string)
  : PropertyRead A :=
  match object !! key with
  | Some a => Own a
  | None =>
      if bool_decide (key ∈ objectPrototypeMembers) then Inherited key
      else Undefined
  end.

(** [object[key] = value] on such an object: [__proto__] is an accessor of
    [Object.prototype] whose setter stores no property (it ignores a string,
    and [Object.prototype] is the prototype already); every other key
    becomes an own property. *)
Definition setProperty {A} (object : gmap string A) (key : string) (value : A)
  : gmap string A :=
  if String.eqb key "__proto__" then object else <[key := value]> object.

(** ** String helpers of the JavaScript runtime *)

(** [s.replaceAll(pat, rep)] for one-character [pat] and [rep]. *)
Fixpoint replaceAll (pat rep : ascii) (s : string) : string :=
  match s with
  | EmptyString => EmptyString
  | String c r => String (if Ascii.eqb c pat then rep else c) (replaceAll pat rep r)
  end.

(** [s.startsWith(p)] *)
Definition startsWith (p s : string) : bool := String.prefix p s.

(** The character class [[\/|\\]] of the import test: inside a class the
    bar is an ordinary character. *)
Definition inSeparatorClass (c : ascii) : bool :=
  Ascii.eqb c "/" || Ascii.eqb c "|" || Ascii.eqb c "\".

(** [/^\.\.?[\/|\\]/.test(i)] *)
Definition testRelative (i : string) : bool :=
  match i with
  | String c0 (String c1 rest) =>
      Ascii.eqb c0 "." &&
      (inSeparatorClass c1 ||
       (Ascii.eqb c1 "." &&
        match rest with
        | String c2 _ => inSeparatorClass c2
        | EmptyString => false
        end))
  | _ => false
  end.

(** ** verify.ts *)

Section Verify.

(** Collaborators that live outside verify.ts. *)
Variable builtinChains : list ChainConfig.
Variable FileDeploymentLoader : string → DeploymentLoader.
Variable loadDeploymentState : DeploymentLoader → option DeploymentState.
Variable analyze : string → list string. (* the [imports] of [analyze] *)
Variable path_join : list string → string.
Variable path_dirname : string → string.
Variable encodeDeploymentArguments : Artifact → list string → outcome string.

(** Modelled from the spec: [findExecutionStatesByType] of
    internal/views, whose code lies outside verify.ts; it selects the
    execution records of the given kind, keeping the order in which the
    deployment state holds them. *)
Definition findExecutionStatesByType (type : ExecutionSateType.t)
    (deploymentState : DeploymentState) : list ExecutionState :=
  filter (λ exState, exStateType exState = type)
         (executionStates deploymentState).

(** The narrowing of [ExecutionState] to [DeploymentExecutionState] that
    the TypeScript signature of [findExecutionStatesByType] performs. *)
Definition asDeploymentExecutionState (exState : ExecutionState)
  : option DeploymentExecutionState :=
  match exState with
  | DeploymentExState e => Some e
  | OtherExState _ _ _ => None
  end.

Definition resolveChainConfig (deploymentState : DeploymentState)
    (customChains : list ChainConfig) : outcome ChainConfig :=
  match find (λ c, bool_decide (chainId c = stateChainId deploymentState))
             (customChains ++ builtinChains) with
  | Some chainConfig => Ret chainConfig
  | None =>
      Throw (IgnitionError (UNSUPPORTED_CHAIN (stateChainId deploymentState)))
  end.

(** [imports.map(...)] of [getImportSourceNames]. *)
Definition importSource (sourceName i : string) : string :=
  if testRelative i then
    replaceAll "\" "/" (path_join [path_dirname sourceName; i])
  else i.

Fixpoint getImportSourceNames (fuel : nat) (sourceName : string)
    (buildInfo : BuildInfo) : outcome (list string) :=
  match fuel with
  | O => OutOfFuel
  | S fuel' =>
      match sources (input buildInfo) !! sourceName with
      | None => Throw TypeError
      | Some source =>
          let contractSource := content source in
          let imports := analyze contractSource in
          let importSources := map (importSource sourceName) imports in
          nested ←! omapM (λ i, getImportSourceNames fuel' i buildInfo)
                          importSources;
          Ret (importSources ++ concat nested)
      end
  end.

(** One iteration of the inner loop of [resolveLibraryInfoForArtifact]:
    [sourceToLibraryToAddress[sourceName] ??= {}], the read of
    [libraries[libName]] with its assertion, and the write
    [sourceToLibraryToAddress[sourceName][libName] = libraryAddress].

    When [sourceName] is the name of a member of [Object.prototype] and no
    own property, the [??=] finds that member and assigns nothing, and the
    write goes to the member, an object of the runtime: the mapping gets no
    entry.  Whether the runtime accepts that write, and what the write does
    to the runtime, is not followed here; the statements below that depend
    on it exclude these source paths. *)
Definition resolveLibrary (libraries : gmap string string)
    (sourceName libName : string) (acc : SourceToLibraryToAddress)
  : outcome SourceToLibraryToAddress :=
  let acc := match getProperty acc sourceName with
             | Undefined => <[sourceName := ∅]> acc
             | Own _ | Inherited _ => acc
             end in
  let libraryAddress := getProperty libraries libName in
  _ ←! assertIgnitionInvariant
         (match libraryAddress with Undefined => false | _ => true end)
         ("Could not find address for library " +:+ libName);
  let value := match libraryAddress with
               | Own a => JsString a
               | Inherited member => JsInherited member
               | Undefined => JsString "" (* not reached: the assertion failed *)
               end in
  match getProperty acc sourceName with
  | Own inner => Ret (<[sourceName := setProperty inner libName value]> acc)
  | Inherited _ => Ret acc (* the write goes to that member *)
  | Undefined => Ret acc   (* not reached: the [??=] has assigned *)
  end.

Definition resolveLibraryInfoForArtifact (artifact : Artifact)
    (libraries : gmap string string) : outcome (option SourceToLibraryToAddress) :=
  sourceToLibraryToAddress ←!
    map_fold
      (λ sourceName refObj acc,
         map_fold
           (λ libName (_ : list LinkReference) acc,
              a ←! acc; resolveLibrary libraries sourceName libName a)
           acc refObj)
      (Ret ∅) (linkReferences artifact);
  if bool_decide (map_to_list sourceToLibraryToAddress = []) then Ret None
  else Ret (Some sourceToLibraryToAddress).

Definition prepareInputBasedOn (buildInfo : loc) (artifact : Artifact)
    (libraries : gmap string string) : M InputRef :=
  sourceToLibraryAddresses ←$
    liftO (resolveLibraryInfoForArtifact artifact libraries);
  match sourceToLibraryAddresses with
  | None => mret (InputOf buildInfo)
  | Some sourceToLibraryAddresses =>
      let input := InputOf buildInfo in
      _ ←$ updateInput input (setSettingsLibraries sourceToLibraryAddresses);
      mret input
  end.

(** The deletion loop of [convertExStateToVerifyInfo] over
    [Object.keys(sourceCode.sources)]. *)
Definition pruneSources (sourceNames : list string)
    (srcs : gmap string Source) : gmap string Source :=
  map_fold
    (λ source (_ : Source) acc,
       if bool_decide (source ∈ sourceNames) then acc else delete source acc)
    srcs srcs.

Definition convertExStateToVerifyInfo (fuel : nat)
    (exState : DeploymentExecutionState) (deploymentLoader : DeploymentLoader)
    (includeUnrelatedContracts : bool) : M VerifyInfo :=
  buildInfo ←$ readBuildInfo deploymentLoader (artifactId exState);
  artifact ←$ liftO (loadArtifact deploymentLoader (artifactId exState));
  _ ←$ liftO
    (assertIgnitionInvariant
       (match result exState with
        | Some r => bool_decide (resultType r = ExecutionResultType.SUCCESS)
        | None => false
        end)
       ("Deployment execution state " +:+ id exState +:+
        " should have a successful result to retrieve address"));
  sourceCode ←$ prepareInputBasedOn buildInfo artifact (exLibraries exState);
  _ ←$ (if includeUnrelatedContracts then mret tt
        else
          bi ←$ deref buildInfo;
          imported ←$ liftO (getImportSourceNames fuel (sourceName artifact) bi);
          let sourceNames := sourceName artifact :: imported in
          updateInput sourceCode
            (λ inp, setSources (pruneSources sourceNames (sources inp)) inp));
  bi ←$ deref buildInfo;
  serialized ←$ derefInput sourceCode;
  encoded ←$ liftO (encodeDeploymentArguments artifact (constructorArgs exState));
  mret {| address := match result exState with
                     | Some r => resultAddress r
                     | None => ""
                     end;
          compilerVersion :=
            if startsWith "v" (solcLongVersion bi) then solcLongVersion bi
            else "v" +:+ solcLongVersion bi;
          sourceCode := serialized;
          name := sourceName artifact +:+ ":" +:+ contractName exState;
          args := encoded |}.

(** *** The generator [getVerificationInformation]

    An async generator runs only when its consumer asks for the next
    element.  A [Generator] is the suspended computation: before its first
    resumption, at the [yield] of the loop with the records still to be
    processed, or finished. *)
Inductive Generator :=
| SuspendedStart (deploymentDir : string) (customChains : list ChainConfig)
    (includeUnrelatedContracts : bool)
| SuspendedYield (deploymentLoader : DeploymentLoader)
    (chainConfig : ChainConfig) (includeUnrelatedContracts : bool)
    (pending : list DeploymentExecutionState)
| Completed.

Inductive IteratorResult :=
| Yielded (value : VerifyResult)
| Finished.

Definition getVerificationInformation (deploymentDir : string)
    (customChains : list ChainConfig) (includeUnrelatedContracts : bool)
  : Generator :=
  SuspendedStart deploymentDir customChains includeUnrelatedContracts.

(** The [for ... of deploymentExStates] loop, entered with [pending]
    records left, up to its next [yield]. *)
Definition resumeLoop (fuel : nat) (deploymentLoader : DeploymentLoader)
    (chainConfig : ChainConfig) (includeUnrelatedContracts : bool)
    (pending : list DeploymentExecutionState) (σ : Store)
  : outcome IteratorResult * Generator * Store :=
  match pending with
  | [] => (Ret Finished, Completed, σ)
  | exState :: rest =>
      match convertExStateToVerifyInfo fuel exState deploymentLoader
              includeUnrelatedContracts σ with
      | (Ret verifyInfo, σ') =>
          let verifyResult : VerifyResult := (chainConfig, verifyInfo) in
          (Ret (Yielded verifyResult),
           SuspendedYield deploymentLoader chainConfig
             includeUnrelatedContracts rest,
           σ')
      | (Throw e, σ') => (Throw e, Completed, σ')
      | (OutOfFuel, σ') => (OutOfFuel, Completed, σ')
      end
  end.

(** [generator.next()] *)
Definition next (fuel : nat) (g : Generator) (σ : Store)
  : outcome IteratorResult * Generator * Store :=
  match g with
  | Completed => (Ret Finished, Completed, σ)
  | SuspendedYield deploymentLoader chainConfig includeUnrelatedContracts
      pending =>
      resumeLoop fuel deploymentLoader chainConfig includeUnrelatedContracts
        pending σ
  | SuspendedStart deploymentDir customChains includeUnrelatedContracts =>
      let deploymentLoader := FileDeploymentLoader deploymentDir in
      match loadDeploymentState deploymentLoader with
      | None =>
          (Throw (IgnitionError (UNINITIALIZED_DEPLOYMENT deploymentDir)),
           Completed, σ)
      | Some deploymentState =>
          match resolveChainConfig deploymentState customChains with
          | Throw e => (Throw e, Completed, σ)
          | OutOfFuel => (OutOfFuel, Completed, σ)
          | Ret chainConfig =>
              let deploymentExStates :=
                filter (λ exState, status exState = ExecutionStatus.SUCCESS)
                  (omap asDeploymentExecutionState
                     (findExecutionStatesByType
                        ExecutionSateType.DEPLOYMENT_EXECUTION_STATE
                        deploymentState)) in
              if Nat.eqb (length deploymentExStates) 0 then
                (Throw (IgnitionError (NO_CONTRACTS_DEPLOYED deploymentDir)),
                 Completed, σ)
              else
                resumeLoop fuel deploymentLoader chainConfig
                  includeUnrelatedContracts deploymentExStates σ
          end
      end
  end.

(** How a consumer's run over the generator ended. *)
Inductive Ending :=
| Suspended                (* the consumer stopped asking *)
| Returned                 (* the generator finished *)
| Raised (e : Error)       (* the generator threw *)
| Unanswered.              (* a request that has not returned *)

(** A consumer that asks for at most [n] elements
    ([for await (const r of generator) ...], left after [n] rounds). *)
Fixpoint consume (fuel n : nat) (g : Generator) (σ : Store)
  : list VerifyResult * Ending * Store :=
  match n with
  | O => ([], Suspended, σ)
  | S n' =>
      match next fuel g σ with
      | (Ret (Yielded v), g', σ') =>
          let '(vs, ending, σ'') := consume fuel n' g' σ' in
          (v :: vs, ending, σ'')
      | (Ret Finished, _, σ') => ([], Returned, σ')
      | (Throw e, _, σ') => ([], Raised e, σ')
      | (OutOfFuel, _, σ') => ([], Unanswered, σ')
      end
  end.

End Verify.

(** ** Worked inputs

    Concrete collaborators and inputs on which the definitions above are
    evaluated. *)
Module Fixture.

(** A stand-in for the import analyzer: the paths of the directives
    written [import '<path>';], in order of appearance. *)
Fixpoint upToQuote (s : string) : string :=
  match s with
  | EmptyString => EmptyString
  | String c r => if Ascii.eqb c "'" then EmptyString else String c (upToQuote r)
  end.

Fixpoint analyze (s : string) : list string :=
  match s with
  | EmptyString => []
  | String _ r =>
      if String.prefix "import '" s then
        upToQuote (String.substring 8 (String.length s - 8) s) :: analyze r
      else analyze r
  end.

Definition encode (_ : Artifact) (values : list string) : outcome string :=
  Ret (String.concat "" values).

Definition src (text : string) : Source := {| content := text |}.

Definition plainSettings : CompilerSettings :=
  {| libraries := None; otherSettings := "{}" |}.

Definition buildInfoOf (srcs : list (string * string)) : BuildInfo :=
  {| solcLongVersion := "0.8.19+commit.7dd6d404";
     input := {| language := "Solidity";
                 sources := list_to_map (prod_map Datatypes.id src <$> srcs);
                 settings := plainSettings |} |}.

Definition closure (fuel : nat) (root : string) (srcs : list (string * string))
  : outcome (list string) :=
  getImportSourceNames analyze posix.join posix.dirname fuel root
    (buildInfoOf srcs).

(** A.sol and B.sol import each other. *)
Definition cyclic : list (string * string) :=
  [("A.sol", "import './B.sol';"); ("B.sol", "import './A.sol';")].

(** A.sol imports ./B.sol, which imports C.sol and ../D/E.sol. *)
Definition abcde : list (string * string) :=
  [("A.sol", "import './B.sol';");
   ("B.sol", "import 'C.sol'; import '../D/E.sol';");
   ("C.sol", "contract C {}");
   ("D/E.sol", "contract E {}")].

(** The same files with E keyed by the path the resolver computes. *)
Definition abcde' : list (string * string) :=
  abcde ++ [("../D/E.sol", "contract E {}")].

(** The same graph one directory down, in both separator styles. *)
Definition nested : list (string * string) :=
  [("contracts/A.sol", "import './B.sol';");
   ("contracts/B.sol", "import 'C.sol'; import '../D/E.sol';");
   ("C.sol", "contract C {}");
   ("D/E.sol", "contract E {}")].

Definition nestedBackslash : list (string * string) :=
  [("contracts/A.sol", "import '.\B.sol';");
   ("contracts/B.sol", "import 'C.sol'; import '..\D\E.sol';");
   ("C.sol", "contract C {}");
   ("D/E.sol", "contract E {}")].


(** A deployment of two contracts compiled in one build: A links the
    library Lib and imports its file, B stands alone. *)
Definition deployed : BuildInfo :=
  buildInfoOf
    [("A.sol", "import './Lib.sol'; contract A {}");
     ("Lib.sol", "library Lib {}");
     ("B.sol", "contract B {}")].

Definition artifactA : Artifact :=
  {| artifactContractName := "A"; sourceName := "A.sol"; abi := "[]";
     bytecode := "0x6080";
     linkReferences :=
       {["Lib.sol" := {["Lib" := [{| refStart := 10; refLength := 20 |}]]}]} |}.

(** The artifact of the spec's example: one link reference to MathLib of
    Lib.sol. *)
Definition mathArtifact : Artifact :=
  {| artifactContractName := "Calc"; sourceName := "Calc.sol"; abi := "[]";
     bytecode := "0x6080";
     linkReferences :=
       {["Lib.sol" := {["MathLib" := [{| refStart := 64; refLength := 20 |}]]}]} |}.

(** An artifact whose link references name a source file but no library. *)
Definition hollowArtifact : Artifact :=
  {| artifactContractName := "B"; sourceName := "B.sol"; abi := "[]";
     bytecode := "0x6080"; linkReferences := {["Lib.sol" := ∅]} |}.

Definition artifactB : Artifact :=
  {| artifactContractName := "B"; sourceName := "B.sol"; abi := "[]";
     bytecode := "0x6080"; linkReferences := ∅ |}.

(** Artifacts that link a library named as a member of [Object.prototype]
    is. *)
Definition protoArtifact : Artifact :=
  {| artifactContractName := "Calc"; sourceName := "Calc.sol"; abi := "[]";
     bytecode := "0x6080";
     linkReferences :=
       {["Lib.sol" := {["__proto__" := [{| refStart := 10; refLength := 20 |}]]}]}
  |}.

Definition toStringArtifact : Artifact :=
  {| artifactContractName := "Calc"; sourceName := "Calc.sol"; abi := "[]";
     bytecode := "0x6080";
     linkReferences :=
       {["Lib.sol" := {["toString" := [{| refStart := 10; refLength := 20 |}]]}]}
  |}.

(** The artifact of contracts/A.sol in the build [nested]. *)
Definition nestedArtifact : Artifact :=
  {| artifactContractName := "A"; sourceName := "contracts/A.sol"; abi := "[]";
     bytecode := "0x6080"; linkReferences := ∅ |}.

Definition artifacts (artifactId : string) : outcome Artifact :=
  if String.eqb artifactId "Mod#A" then Ret artifactA
  else if String.eqb artifactId "Mod#B" then Ret artifactB
  else Throw (ExternalError "artifact not found").

(** The loader of the worked deployment: every read parses the stored
    build anew. *)
Definition freshLoader : DeploymentLoader :=
  reparsingLoader (λ _, Ret deployed) artifacts.

(** The loader of a deployment of contracts/A.sol of the build [nested]. *)
Definition nestedLoader : DeploymentLoader :=
  reparsingLoader (λ _, Ret (buildInfoOf nested)) (λ _, Ret nestedArtifact).

(** A loader of another kind, which is not the one of the program: it
    keeps one [BuildInfo] object at location 1 and hands that object out at
    every read.  It serves to run a conversion on the object that an earlier
    conversion has written to. *)
Definition sharingLoader : DeploymentLoader :=
  {| readBuildInfo := λ _, mret 1%positive; loadArtifact := artifacts |}.

Definition store1 : Store := {[1%positive := deployed]}.

Definition success (address : string) : option DeploymentExecutionResult :=
  Some {| resultType := ExecutionResultType.SUCCESS; resultAddress := address |}.

Definition exA : DeploymentExecutionState :=
  {| id := "Mod#A"; status := ExecutionStatus.SUCCESS; artifactId := "Mod#A";
     contractName := "A"; constructorArgs := [];
     exLibraries := {["Lib" := "0xabc"]}; result := success "0x0a" |}.

Definition exB : DeploymentExecutionState :=
  {| id := "Mod#B"; status := ExecutionStatus.SUCCESS; artifactId := "Mod#B";
     contractName := "B"; constructorArgs := ["2a"];
     exLibraries := ∅; result := success "0x0b" |}.

Definition exNested : DeploymentExecutionState :=
  {| id := "Mod#A"; status := ExecutionStatus.SUCCESS; artifactId := "Mod#A";
     contractName := "A"; constructorArgs := [];
     exLibraries := ∅; result := success "0x0a" |}.

Definition exFailed : DeploymentExecutionState :=
  {| id := "Mod#F"; status := ExecutionStatus.FAILED; artifactId := "Mod#B";
     contractName := "B"; constructorArgs := [];
     exLibraries := ∅; result := None |}.

Definition mainnet : ChainConfig :=
  {| network := "mainnet"; chainId := 1;
     apiURL := "https://api.etherscan.io/api";
     browserURL := "https://etherscan.io" |}.

Definition sepolia : ChainConfig :=
  {| network := "sepolia"; chainId := 11155111;
     apiURL := "https://api-sepolia.etherscan.io/api";
     browserURL := "https://sepolia.etherscan.io" |}.

Definition customMainnet : ChainConfig :=
  {| network := "my-mainnet"; chainId := 1;
     apiURL := "https://explorer.example/api";
     browserURL := "https://explorer.example" |}.

Definition builtin : list ChainConfig := [mainnet; sepolia].

Definition stateOn (chain : Z) (exStates : list ExecutionState)
  : DeploymentState :=
  {| stateChainId := chain; executionStates := exStates |}.

Definition otherCall : ExecutionState :=
  OtherExState ExecutionSateType.CALL_EXECUTION_STATE "Mod#call"
    ExecutionStatus.SUCCESS.

(** B and A deployed, in this order, among a call and a failed deployment. *)
Definition stateTwo : DeploymentState :=
  stateOn 1 [DeploymentExState exB; otherCall; DeploymentExState exFailed;
             DeploymentExState exA].

(** No successful deployment. *)
Definition stateNone : DeploymentState :=
  stateOn 1 [otherCall; DeploymentExState exFailed].

(** On a chain that no list knows: with B deployed, and without any record. *)
Definition stateUnknownChain : DeploymentState :=
  stateOn 424242 [DeploymentExState exB].

Definition stateUnknownEmpty : DeploymentState := stateOn 424242 [].

(** Deployment states by directory; any other directory holds none. *)
Definition states (deploymentDir : string) : option DeploymentState :=
  if String.eqb deploymentDir "deployments/two" then Some stateTwo
  else if String.eqb deploymentDir "deployments/none" then Some stateNone
  else if String.eqb deploymentDir "deployments/unknown-chain" then
    Some stateUnknownChain
  else if String.eqb deploymentDir "deployments/unknown-empty" then
    Some stateUnknownEmpty
  else None.

(** The pipeline over these collaborators. *)
Definition pipeline (loader : DeploymentLoader) (fuel n : nat)
    (deploymentDir : string) (customChains : list ChainConfig)
    (includeUnrelatedContracts : bool) (σ : Store)
  : list VerifyResult * Ending * Store :=
  consume builtin (λ _, loader) (λ _, states deploymentDir) analyze
    posix.join posix.dirname encode fuel n
    (getVerificationInformation deploymentDir customChains
       includeUnrelatedContracts) σ.

Definition convert (loader : DeploymentLoader) (fuel : nat)
    (exState : DeploymentExecutionState) (includeUnrelatedContracts : bool)
  : M VerifyInfo :=
  convertExStateToVerifyInfo analyze posix.join posix.dirname encode fuel
    exState loader includeUnrelatedContracts.

End Fixture.


(** ** The import graph of a build

    [importEdge bi s t]: the file [s] of the build has an import that
    [getImportSourceNames] resolves to [t]. *)
Definition importEdge (analyze : string → list string)
    (path_join : list string → string) (path_dirname : string → string)
    (bi : BuildInfo) (s t : string) : Prop :=
  ∃ source, sources (input bi) !! s = Some source ∧
    t ∈ map (importSource path_join path_dirname s) (analyze (content source)).

(** A cycle of the import graph can be reached from [root]. *)
Definition reachesCycle (analyze : string → list string)
    (path_join : list string → string) (path_dirname : string → string)
    (bi : BuildInfo) (root : string) : Prop :=
  ∃ s, rtc (importEdge analyze path_join path_dirname bi) root s ∧
       tc (importEdge analyze path_join path_dirname bi) s s.

(** [i] begins with the characters of [p]. *)
Definition beginsWith (p i : string) : Prop := ∃ rest, i = p +:+ rest.

(** ** The mapping that library resolution builds

    [readAddress libs l] is the value that the read [libs[l]] finds, if it
    finds one.  [resolvedRefs libs refObj] maps every library name of
    [refObj], [__proto__] apart, to the value read for it;
    [resolvedLinkReferences] does so for every source path that has a
    library name at all and is not the name of a member of
    [Object.prototype]. *)
Definition readAddress (libs : gmap string string) (libName : string)
  : option JsValue :=
  match getProperty libs libName with
  | Own a => Some (JsString a)
  | Inherited member => Some (JsInherited member)
  | Undefined => None
  end.

Definition resolvedRefs (libs : gmap string string)
    (refObj : gmap string (list LinkReference)) : gmap string JsValue :=
  map_imap (λ libName _, if String.eqb libName "__proto__" then None
                         else readAddress libs libName) refObj.

Definition resolvedLinkReferences (libs : gmap string string)
    (linkRefs : gmap string (gmap string (list LinkReference)))
  : SourceToLibraryToAddress :=
  map_imap (λ sourceName refObj,
              if decide (refObj = ∅ ∨ sourceName ∈ objectPrototypeMembers)
              then None
              else Some (resolvedRefs libs refObj)) linkRefs.

(** Link references whose names are read and written as the keys of a
    dictionary: no source path that has a library name is the name of a
    member of [Object.prototype], and no library is named [__proto__]. *)
Definition ordinaryNames
    (linkRefs : gmap string (gmap string (list LinkReference))) : Prop :=
  ∀ s refObj l, linkRefs !! s = Some refObj → is_Some (refObj !! l) →
    (s ∉ objectPrototypeMembers) ∧ l ≠ "__proto__".

(** The message of the invariant that a referenced library has an address. *)
Definition missingLibrary (libName : string) : Error :=
  IgnitionInvariantError ("Could not find address for library " +:+ libName).

(** ** Notions used in the statements about the store and the pipeline *)


(** The records that [getVerificationInformation] selects: the deployment
    execution states with status SUCCESS. *)
Definition successfulDeployments (deploymentState : DeploymentState)
  : list DeploymentExecutionState :=
  filter (λ exState, status exState = ExecutionStatus.SUCCESS)
    (omap asDeploymentExecutionState
       (findExecutionStatesByType ExecutionSateType.DEPLOYMENT_EXECUTION_STATE
          deploymentState)).

Definition isSuccessfulDeployment (exState : ExecutionState) : Prop :=
  match exState with
  | DeploymentExState e => status e = ExecutionStatus.SUCCESS
  | OtherExState _ _ _ => False
  end.

#[global] Instance isSuccessfulDeployment_dec (exState : ExecutionState) :
  Decision (isSuccessfulDeployment exState).
Proof. destruct exState; simpl; apply _. Defined.

(** [y] is what the pipeline yields for the record [exState]: the chain
    config paired with a [VerifyInfo] that the conversion of [exState]
    returned, carrying the address of the record's result. *)
Definition yieldedFor (analyze : string → list string)
    (path_join : list string → string) (path_dirname : string → string)
    (encodeDeploymentArguments : Artifact → list string → outcome string)
    (fuel : nat) (loader : DeploymentLoader) (chainConfig : ChainConfig)
    (includeUnrelatedContracts : bool) (exState : DeploymentExecutionState)
    (y : VerifyResult) : Prop :=
  y.1 = chainConfig ∧
  (∃ σa σb,
     convertExStateToVerifyInfo analyze path_join path_dirname
       encodeDeploymentArguments fuel exState loader includeUnrelatedContracts σa
     = (Ret y.2, σb)) ∧
  (∃ r, result exState = Some r ∧ address y.2 = resultAddress r).

(** ** Notions used in the further properties *)

(** [s] contains the character [c]. *)
Fixpoint containsChar (c : ascii) (s : string) : bool :=
  match s with
  | EmptyString => false
  | String c' r => Ascii.eqb c' c || containsChar c r
  end.

(** [bi'] is [bi] with, at most, other library settings and fewer sources:
    the compiler version, the language, the other settings and the content
    of the sources that are left are those of [bi]. *)
Definition keepsBuild (bi bi' : BuildInfo) : Prop :=
  solcLongVersion bi' = solcLongVersion bi ∧
  language (input bi') = language (input bi) ∧
  otherSettings (settings (input bi')) = otherSettings (settings (input bi)) ∧
  sources (input bi') ⊆ sources (input bi).

(** [m], run on a store whose object at [b] satisfies [keepsBuild bi],
    leaves such an object at [b]. *)
Definition keepsBuildAt {A} (b : loc) (bi : BuildInfo) (m : M A) : Prop :=
  ∀ σ bi0, σ !! b = Some bi0 → keepsBuild bi bi0 →
    ∃ bi1, (m σ).2 !! b = Some bi1 ∧ keepsBuild bi bi1.

Section Consumer.

Variable builtinChains : list ChainConfig.
Variable FileDeploymentLoader : string → DeploymentLoader.
Variable loadDeploymentState : DeploymentLoader → option DeploymentState.
Variable analyze : string → list string.
Variable path_join : list string → string.
Variable path_dirname : string → string.
Variable encodeDeploymentArguments : Artifact → list string → outcome string.

(** A consumer that asks for at most [n] elements, as [consume], and keeps
    the generator, so that it can go on asking later. *)
Fixpoint pull (fuel n : nat) (g : Generator) (σ : Store)
  : list VerifyResult * Ending * Generator * Store :=
  match n with
  | O => ([], Suspended, g, σ)
  | S n' =>
      match next builtinChains FileDeploymentLoader loadDeploymentState analyze
              path_join path_dirname encodeDeploymentArguments fuel g σ with
      | (Ret (Yielded v), g', σ') =>
          let '(vs, ending, g'', σ'') := pull fuel n' g' σ' in
          (v :: vs, ending, g'', σ'')
      | (Ret Finished, g', σ') => ([], Returned, g', σ')
      | (Throw e, g', σ') => ([], Raised e, g', σ')
      | (OutOfFuel, g', σ') => ([], Unanswered, g', σ')
      end
  end.

End Consumer.

(** * Properties *)

(** ** Outcomes *)

Lemma omapM_Ret {A B} (f : A → outcome B) (l : list A) (ys : list B) :
  omapM f l = Ret ys ↔ Forall2 (λ x y, f x = Ret y) l ys.
Proof.
  revert ys. induction l as [|x l IH]; intros ys; simpl.
  - split.
    + intros [= <-]. constructor.
    + intros H. inversion H. reflexivity.
  - destruct (f x) as [y| |] eqn:Hx; simpl.
    + destruct (omapM f l) as [zs| |] eqn:Hl; simpl.
      * split.
        -- intros [= <-]. constructor; [done|]. by apply IH.
        -- intros H. inversion H as [|? y' ? zs' Hy Hzs]; subst.
           apply IH in Hzs. congruence.
      * split; [done|]. intros H. inversion H as [|? y' ? zs' Hy Hzs]; subst.
        apply IH in Hzs. done.
      * split; [done|]. intros H. inversion H as [|? y' ? zs' Hy Hzs]; subst.
        apply IH in Hzs. done.
    + split; [done|]. intros H. inversion H; congruence.
    + split; [done|]. intros H. inversion H; congruence.
Qed.

Lemma omapM_ext {A B} (f g : A → outcome B) (l : list A) :
  (∀ x, x ∈ l → f x = g x) → omapM f l = omapM g l.
Proof.
  induction l as [|x l IH]; intros Hfg; simpl; [done|].
  rewrite (Hfg x) by left. rewrite IH; [done|].
  intros y Hy. apply Hfg. by right.
Qed.

Lemma omapM_settled {A B} (f g : A → outcome B) (l : list A) :
  (∀ x, f x ≠ OutOfFuel → g x = f x) → omapM f l ≠ OutOfFuel →
  omapM g l = omapM f l.
Proof.
  intros Hfg. induction l as [|x l IH]; simpl; [done|].
  intros H. destruct (f x) as [y|e|] eqn:Hx; simpl in *.
  - rewrite (Hfg x) by congruence. rewrite Hx. simpl.
    rewrite IH; [done|]. intros Hl. by rewrite Hl in H.
  - rewrite (Hfg x) by congruence. by rewrite Hx.
  - done.
Qed.

Lemma omapM_Throw {A B} (f : A → outcome B) (l : list A) (e : Error) :
  omapM f l = Throw e → ∃ x, x ∈ l ∧ f x = Throw e.
Proof.
  induction l as [|x l IH]; simpl; [done|].
  destruct (f x) as [y|e'|] eqn:Hx; simpl; [|intros [= <-]..|done].
  - destruct (omapM f l) as [ys|e'|]; simpl; [done| |done].
    intros [= <-]. destruct IH as (z & Hz & Hfz); [done|].
    exists z. split; [by right|done].
  - exists x. split; [by left|done].
Qed.

Lemma omapM_Ret_all {A B} (f : A → outcome B) (l : list A) :
  (∀ x, x ∈ l → ∃ y, f x = Ret y) → ∃ ys, omapM f l = Ret ys.
Proof.
  induction l as [|x l IH]; intros Hall; simpl; [by eexists|].
  destruct (Hall x) as [y ->]; [by left|].
  destruct IH as [ys ->]; [intros z Hz; apply Hall; by right|].
  by eexists.
Qed.

(** ** The import closure resolver *)

Section ClosureFacts.

Variable analyze : string → list string.
Variable path_join : list string → string.
Variable path_dirname : string → string.

Local Abbreviation closureOf := (getImportSourceNames analyze path_join path_dirname).
Local Abbreviation resolve := (importSource path_join path_dirname).
Local Abbreviation edge := (importEdge analyze path_join path_dirname).

Lemma closure_Ret_inv (fuel : nat) (s : string) (bi : BuildInfo) (l : list string) :
  closureOf fuel s bi = Ret l →
  ∃ fuel' source nested,
    fuel = S fuel' ∧
    sources (input bi) !! s = Some source ∧
    Forall2 (λ i r, closureOf fuel' i bi = Ret r)
      (map (resolve s) (analyze (content source))) nested ∧
    l = map (resolve s) (analyze (content source)) ++ concat nested.
Proof.
  destruct fuel as [|fuel']; simpl; [done|].
  destruct (sources (input bi) !! s) as [source|] eqn:Hs; [|done].
  destruct (omapM _ _) as [nested| |] eqn:Hn; simpl; [|done..].
  intros [= <-]. exists fuel', source, nested.
  by apply omapM_Ret in Hn.
Qed.

(** A closure that is returned names only files of the build, and so does
    its root. *)
Lemma closure_in_sources (fuel : nat) (s : string) (bi : BuildInfo) (l : list string) :
  closureOf fuel s bi = Ret l →
  is_Some (sources (input bi) !! s) ∧
  Forall (λ x, is_Some (sources (input bi) !! x)) l.
Proof.
  revert s l. induction fuel as [|fuel IH]; intros s l H; [done|].
  apply closure_Ret_inv in H as (fuel' & source & nested & [= <-] & Hs & Hn & ->).
  split; [by eexists|].
  apply Forall_app. split.
  - eapply Forall2_Forall_l; [exact Hn|].
    apply Forall_true. intros r i Hi. by apply IH in Hi as [? _].
  - apply Forall_concat. eapply Forall2_Forall_r; [exact Hn|].
    apply Forall_true. intros i r Hr. by apply IH in Hr as [_ ?].
Qed.

(** More fuel does not change an outcome that was reached, be it a result
    or an exception. *)
Lemma closure_mono (fuel fuel' : nat) (s : string) (bi : BuildInfo) :
  (fuel ≤ fuel')%nat → closureOf fuel s bi ≠ OutOfFuel →
  closureOf fuel' s bi = closureOf fuel s bi.
Proof.
  revert fuel' s. induction fuel as [|fuel IH]; intros fuel' s Hle H; [done|].
  destruct fuel' as [|fuel']; [lia|].
  simpl in *. destruct (sources (input bi) !! s) as [source|]; [|done].
  rewrite (omapM_settled (λ i, closureOf fuel i bi) (λ i, closureOf fuel' i bi));
    [done| |].
  - intros i Hi. apply IH; [lia|done].
  - intros Hn. apply H. by rewrite Hn.
Qed.

Lemma closure_mono_Ret (fuel fuel' : nat) (s : string) (bi : BuildInfo) (l : list string) :
  (fuel ≤ fuel')%nat → closureOf fuel s bi = Ret l → closureOf fuel' s bi = Ret l.
Proof. intros Hle H. rewrite (closure_mono fuel fuel') by (done || congruence). done. Qed.

(** The resolver reads nothing of the build but its [sources]. *)
Lemma closure_sources_only (fuel : nat) (s : string) (bi bi' : BuildInfo) :
  sources (input bi) = sources (input bi') →
  closureOf fuel s bi = closureOf fuel s bi'.
Proof.
  intros Heq. revert s. induction fuel as [|fuel IH]; intros s; simpl; [done|].
  rewrite <- Heq. destruct (sources (input bi) !! s) as [source|]; [|done].
  f_equal. apply omapM_ext. intros i _. apply IH.
Qed.

(** A call that returns has returned for every import of its file, on less
    fuel. *)
Lemma closure_Ret_edge (fuel : nat) (s t : string) (bi : BuildInfo) (l : list string) :
  closureOf (S fuel) s bi = Ret l → edge bi s t →
  ∃ l', closureOf fuel t bi = Ret l'.
Proof.
  intros H (source & Hs & Ht).
  apply closure_Ret_inv in H as (f0 & source' & nested & [= <-] & Hs' & Hn & _).
  assert (source' = source) as -> by congruence.
  apply list_elem_of_lookup in Ht as [k Hk].
  destruct (Forall2_lookup_l _ _ _ _ _ Hn Hk) as (r & _ & Hr).
  by exists r.
Qed.

(** Once some fuel settles the outcome, every other amount either gives the
    same outcome or runs out. *)
Lemma closure_settled (fuel0 fuel : nat) (s : string) (bi : BuildInfo) :
  closureOf fuel0 s bi ≠ OutOfFuel →
  closureOf fuel s bi = closureOf fuel0 s bi ∨ closureOf fuel s bi = OutOfFuel.
Proof.
  intros H0. destruct (decide (fuel0 ≤ fuel)%nat) as [Hle|Hgt].
  - left. by apply closure_mono.
  - destruct (closureOf fuel s bi) as [l|e|] eqn:H; [| |by right].
    + left. rewrite <- H. symmetry. apply closure_mono; [lia|congruence].
    + left. rewrite <- H. symmetry. apply closure_mono; [lia|congruence].
Qed.

Lemma reachesCycle_step (bi : BuildInfo) (s : string) :
  reachesCycle analyze path_join path_dirname bi s →
  ∃ t, edge bi s t ∧ reachesCycle analyze path_join path_dirname bi t.
Proof.
  intros (c & Hsc & Hcc).
  destruct Hsc as [s|s t c Hst Htc].
  - inversion Hcc as [? ? Hss|? t ? Hst Hts]; subst.
    + exists s. split; [done|]. exists s. split; [apply rtc_refl|done].
    + exists t. split; [done|]. exists s. split; [by apply tc_rtc|done].
  - exists t. split; [done|]. by exists c.
Qed.

Lemma closure_cycle_no_result (bi : BuildInfo) (fuel : nat) (s : string) (l : list string) :
  reachesCycle analyze path_join path_dirname bi s → closureOf fuel s bi ≠ Ret l.
Proof.
  revert s l. induction fuel as [|fuel IH]; intros s l Hs H; [done|].
  destruct (reachesCycle_step bi s Hs) as (t & Hst & Ht).
  destruct (closure_Ret_edge fuel s t bi l H Hst) as [l' Hl'].
  by eapply IH.
Qed.

(** When every file that can be reached is part of the build, no property
    read fails. *)
Lemma closure_no_throw (bi : BuildInfo) (fuel : nat) (s : string) (e : Error) :
  (∀ t, rtc (edge bi) s t → is_Some (sources (input bi) !! t)) →
  closureOf fuel s bi ≠ Throw e.
Proof.
  revert s. induction fuel as [|fuel IH]; intros s Hclosed; simpl; [done|].
  destruct (Hclosed s) as [source Hs]; [apply rtc_refl|]. rewrite Hs.
  destruct (omapM _ _) as [nested|e'|] eqn:Hn; simpl; [done| |done].
  intros [= ->]. apply omapM_Throw in Hn as (t & Ht & Hthrow).
  eapply IH; [|exact Hthrow].
  intros u Hu. apply Hclosed. eapply rtc_l; [|exact Hu]. by exists source.
Qed.

End ClosureFacts.

(** *** The import closure as reachability *)

Lemma elem_of_concat_lists {A} (x : A) (ls : list (list A)) :
  x ∈ concat ls ↔ ∃ l, x ∈ l ∧ l ∈ ls.
Proof.
  induction ls as [|l0 ls IH]; simpl.
  - split; [by intros ?%elem_of_nil|]. by intros (l & _ & ?%elem_of_nil).
  - rewrite elem_of_app, IH. split.
    + intros [Hx|(l & Hx & Hl)]; [exists l0|exists l]; split; try done;
        [by left|by right].
    + intros (l & Hx & [->|Hl]%elem_of_cons); [by left|right; by exists l].
Qed.

Section ClosureReachability.

Variable analyze : string → list string.
Variable path_join : list string → string.
Variable path_dirname : string → string.

Local Abbreviation closureOf := (getImportSourceNames analyze path_join path_dirname).
Local Abbreviation resolve := (importSource path_join path_dirname).
Local Abbreviation edge := (importEdge analyze path_join path_dirname).

(** Every name of a returned closure is reached from the root along
    imports. *)
Lemma closure_sound (fuel : nat) (s : string) (bi : BuildInfo) (l : list string)
    (x : string) :
  closureOf fuel s bi = Ret l → x ∈ l → tc (edge bi) s x.
Proof.
  revert s l. induction fuel as [|fuel IH]; intros s l H Hx; [done|].
  apply closure_Ret_inv in H as (f0 & source & nested & [= <-] & Hs & Hn & ->).
  apply elem_of_app in Hx as [Hx|Hx].
  - apply tc_once. by exists source.
  - apply elem_of_concat_lists in Hx as (r & Hxr & Hr).
    apply list_elem_of_lookup in Hr as [k Hk].
    destruct (Forall2_lookup_r _ _ _ _ _ Hn Hk) as (i & Hi & Hir).
    eapply tc_l; [|by eapply IH].
    exists source. split; [done|]. apply list_elem_of_lookup. by exists k.
Qed.

(** Every file reached from the root along imports is named by a returned
    closure. *)
Lemma closure_complete (s x : string) (bi : BuildInfo) :
  tc (edge bi) s x →
  ∀ fuel l, closureOf fuel s bi = Ret l → x ∈ l.
Proof.
  induction 1 as [s x Hsx|s y x Hsy Hyx IH]; intros fuel l H.
  - destruct Hsx as (source & Hs & Hx).
    apply closure_Ret_inv in H as (f0 & source' & nested & -> & Hs' & Hn & ->).
    assert (source' = source) as -> by congruence.
    apply elem_of_app. by left.
  - pose proof H as H'.
    apply closure_Ret_inv in H' as (f0 & source & nested & -> & Hs & Hn & ->).
    destruct Hsy as (source' & Hs' & Hy).
    assert (source' = source) as -> by congruence.
    apply list_elem_of_lookup in Hy as [k Hk].
    destruct (Forall2_lookup_l _ _ _ _ _ Hn Hk) as (r & Hr & Hyr).
    apply elem_of_app. right. apply elem_of_concat_lists.
    exists r. split; [by eapply IH|]. apply list_elem_of_lookup. by exists k.
Qed.

End ClosureReachability.

(** C2 (not met by the code): [getImportSourceNames] carries no record of
    the files it has visited.  When a cycle of the import graph can be
    reached from the root, no amount of fuel lets the call return a closure;
    and when every reachable file is part of the build, so that no read
    fails either, the call never comes back at all. *)
Theorem getImportSourceNames_cycle_never_returns
    (analyze : string → list string) (path_join : list string → string)
    (path_dirname : string → string) (bi : BuildInfo) (root : string) :
  reachesCycle analyze path_join path_dirname bi root →
  ∀ fuel : nat,
    (∀ l, getImportSourceNames analyze path_join path_dirname fuel root bi ≠ Ret l) ∧
    ((∀ t, rtc (importEdge analyze path_join path_dirname bi) root t →
           is_Some (sources (input bi) !! t)) →
     getImportSourceNames analyze path_join path_dirname fuel root bi = OutOfFuel).
Proof.
  intros Hcycle fuel. split.
  - intros l. by apply closure_cycle_no_result.
  - intros Hclosed.
    destruct (getImportSourceNames _ _ _ fuel root bi) as [l|e|] eqn:H; [| |done].
    + by apply closure_cycle_no_result in H.
    + by apply closure_no_throw in H.
Qed.

Lemma cyclic_edge_AB :
  importEdge Fixture.analyze posix.join posix.dirname
    (Fixture.buildInfoOf Fixture.cyclic) "A.sol" "B.sol".
Proof.
  exists (Fixture.src "import './B.sol';"). split; [reflexivity|].
  vm_compute. apply list_elem_of_here.
Qed.

Lemma cyclic_edge_BA :
  importEdge Fixture.analyze posix.join posix.dirname
    (Fixture.buildInfoOf Fixture.cyclic) "B.sol" "A.sol".
Proof.
  exists (Fixture.src "import './A.sol';"). split; [reflexivity|].
  vm_compute. apply list_elem_of_here.
Qed.

Lemma cyclic_reachable (t : string) :
  rtc (importEdge Fixture.analyze posix.join posix.dirname
         (Fixture.buildInfoOf Fixture.cyclic)) "A.sol" t →
  t = "A.sol" ∨ t = "B.sol".
Proof.
  assert (∀ s, s = "A.sol" ∨ s = "B.sol" →
    rtc (importEdge Fixture.analyze posix.join posix.dirname
           (Fixture.buildInfoOf Fixture.cyclic)) s t →
    t = "A.sol" ∨ t = "B.sol") as H; [|by apply H; left].
  intros s Hs Hrtc. induction Hrtc as [s|s u t (source & Hsrc & Hu) _ IH]; [done|].
  apply IH. destruct Hs as [-> | ->].
  - vm_compute in Hsrc. injection Hsrc as <-. vm_compute in Hu.
    apply list_elem_of_singleton in Hu. by right.
  - vm_compute in Hsrc. injection Hsrc as <-. vm_compute in Hu.
    apply list_elem_of_singleton in Hu. by left.
Qed.

(** The failing input of C2: A.sol and B.sol import each other. *)
Lemma getImportSourceNames_cycle_never_returns_witness :
  reachesCycle Fixture.analyze posix.join posix.dirname
    (Fixture.buildInfoOf Fixture.cyclic) "A.sol" ∧
  (∀ fuel, Fixture.closure fuel "A.sol" Fixture.cyclic = OutOfFuel).
Proof.
  assert (reachesCycle Fixture.analyze posix.join posix.dirname
            (Fixture.buildInfoOf Fixture.cyclic) "A.sol") as Hcycle.
  { exists "A.sol". split; [apply rtc_refl|].
    eapply tc_l; [exact cyclic_edge_AB|]. apply tc_once, cyclic_edge_BA. }
  split; [exact Hcycle|].
  intros fuel.
  apply (getImportSourceNames_cycle_never_returns Fixture.analyze posix.join
           posix.dirname (Fixture.buildInfoOf Fixture.cyclic) "A.sol" Hcycle fuel).
  intros t Ht. destruct (cyclic_reachable t Ht) as [-> | ->]; vm_compute; eauto.
Defined.

(** ** Classification and resolution of imports *)

Lemma testRelative_iff (i : string) :
  testRelative i = true ↔
  beginsWith "./" i ∨ beginsWith "../" i ∨ beginsWith ".\" i ∨
  beginsWith "..\" i ∨ beginsWith ".|" i ∨ beginsWith "..|" i.
Proof.
  unfold beginsWith. split.
  - destruct i as [|c0 [|c1 rest]]; simpl; [done..|].
    intros [H0 H]%andb_prop. apply Ascii.eqb_eq in H0 as ->.
    apply orb_prop in H as [H|[H1 H]%andb_prop].
    + unfold inSeparatorClass in H.
      apply orb_prop in H as [[H|H]%orb_prop|H]; apply Ascii.eqb_eq in H as ->;
        [left|do 4 right; left|do 2 right; left]; by exists rest.
    + apply Ascii.eqb_eq in H1 as ->. destruct rest as [|c2 rest]; [done|].
      unfold inSeparatorClass in H.
      apply orb_prop in H as [[H|H]%orb_prop|H]; apply Ascii.eqb_eq in H as ->;
        [right; left|do 5 right|do 3 right; left]; by exists rest.
  - intros [[r ->]|[[r ->]|[[r ->]|[[r ->]|[[r ->]|[r ->]]]]]]; reflexivity.
Qed.

(** C7, the claim as written fails on the code.  With A.sol and B.sol at
    the top of the source tree, [../D/E.sol] is resolved from B.sol to
    [../D/E.sol], not to [D/E.sol]: on a build that holds E under
    [D/E.sol] the closure of A.sol is never returned (the read of
    [sources["../D/E.sol"].content] throws), and on a build that holds it
    under [../D/E.sol] the closure lacks [D/E.sol].  One directory down the
    forward-slash imports resolve as expected, but the same imports written
    with backslashes do not ([path.posix] takes a backslash for a file-name
    character).  And [.|B.sol] passes the test for a relative import. *)
Lemma closure_example_counterexample :
  (∀ fuel l, Fixture.closure fuel "A.sol" Fixture.abcde ≠ Ret l) ∧
  Fixture.closure 3 "A.sol" Fixture.abcde = Throw TypeError ∧
  (Fixture.closure 3 "A.sol" Fixture.abcde' = Ret ["B.sol"; "C.sol"; "../D/E.sol"] ∧
   "D/E.sol" ∉ ["B.sol"; "C.sol"; "../D/E.sol"]) ∧
  (Fixture.closure 3 "contracts/A.sol" Fixture.nested
     = Ret ["contracts/B.sol"; "C.sol"; "D/E.sol"] ∧
   Fixture.closure 3 "contracts/A.sol" Fixture.nestedBackslash = Throw TypeError) ∧
  testRelative ".|B.sol" = true.
Proof.
  assert (Fixture.closure 3 "A.sol" Fixture.abcde = Throw TypeError) as H3
    by (vm_compute; reflexivity).
  split; [|split; [exact H3|]].
  - intros fuel l H.
    destruct (closure_settled Fixture.analyze posix.join posix.dirname 3 fuel
                "A.sol" (Fixture.buildInfoOf Fixture.abcde)) as [H'|H'].
    + unfold Fixture.closure in H3. by rewrite H3.
    + unfold Fixture.closure in *. congruence.
    + unfold Fixture.closure in *. congruence.
  - repeat split; try (vm_compute; reflexivity).
    intros H. repeat (apply elem_of_cons in H as [H|H]; [discriminate H|]).
    by apply elem_of_nil in H.
Qed.

(** C7, as amended: an import that begins with [./] or [../], with either
    separator, passes the test for a relative import and is resolved to
    [path.join(path.dirname(sourceName), i)] with every backslash turned
    into a forward slash; an import that begins with none of [./ ../ .\ ..\
    .| ..|] is left as it is.  With POSIX paths, the closure of A.sol
    importing ./B.sol, which imports C.sol and ../D/E.sol, is B.sol, C.sol
    and ../D/E.sol when the build holds E under that path; for the same
    files under contracts/ it is contracts/B.sol, C.sol and D/E.sol. *)
Theorem importSource_relative_and_closure_example :
  (∀ path_join path_dirname sourceName i,
     beginsWith "./" i ∨ beginsWith "../" i ∨ beginsWith ".\" i ∨ beginsWith "..\" i →
     testRelative i = true ∧
     importSource path_join path_dirname sourceName i
       = replaceAll "\" "/" (path_join [path_dirname sourceName; i])) ∧
  (∀ path_join path_dirname sourceName i,
     ¬ (beginsWith "./" i ∨ beginsWith "../" i ∨ beginsWith ".\" i ∨
        beginsWith "..\" i ∨ beginsWith ".|" i ∨ beginsWith "..|" i) →
     testRelative i = false ∧
     importSource path_join path_dirname sourceName i = i) ∧
  (∀ fuel, (3 ≤ fuel)%nat →
     Fixture.closure fuel "A.sol" Fixture.abcde'
       = Ret ["B.sol"; "C.sol"; "../D/E.sol"]) ∧
  (∀ fuel, (3 ≤ fuel)%nat →
     Fixture.closure fuel "contracts/A.sol" Fixture.nested
       = Ret ["contracts/B.sol"; "C.sol"; "D/E.sol"]).
Proof.
  split; [|split; [|split]].
  - intros pj pd s i H.
    assert (testRelative i = true) as Ht by (apply testRelative_iff; tauto).
    split; [done|]. unfold importSource. by rewrite Ht.
  - intros pj pd s i H.
    assert (testRelative i = false) as Ht.
    { destruct (testRelative i) eqn:Ht; [|done].
      by apply testRelative_iff in Ht. }
    split; [done|]. unfold importSource. by rewrite Ht.
  - intros fuel Hfuel. unfold Fixture.closure.
    apply closure_mono_Ret with (fuel := 3%nat); [done|]. vm_compute. reflexivity.
  - intros fuel Hfuel. unfold Fixture.closure.
    apply closure_mono_Ret with (fuel := 3%nat); [done|]. vm_compute. reflexivity.
Qed.

(** ** The chain config resolver *)

Lemma find_app_first {A} (f : A → bool) (l1 l2 : list A) :
  find f (l1 ++ l2) =
  match find f l1 with Some x => Some x | None => find f l2 end.
Proof.
  induction l1 as [|x l1 IH]; simpl; [done|]. by destruct (f x).
Qed.

Lemma find_Some_first {A} (f : A → bool) (l : list A) (x : A) :
  find f l = Some x ↔
  ∃ pre post, l = pre ++ x :: post ∧ f x = true ∧ Forall (λ y, f y = false) pre.
Proof.
  induction l as [|y l IH]; simpl.
  - split; [done|]. intros (pre & post & H & _). by destruct pre.
  - destruct (f y) eqn:Hy.
    + split.
      * intros [= ->]. exists [], l. by repeat split.
      * intros ([|z pre] & post & Heq & Hx & Hpre); simplify_eq/=; [done|].
        apply Forall_cons in Hpre as [Hz _]. congruence.
    + rewrite IH. split.
      * intros (pre & post & -> & Hx & Hpre). exists (y :: pre), post.
        repeat split; [done|]. by constructor.
      * intros ([|z pre] & post & Heq & Hx & Hpre); simplify_eq/=; [congruence|].
        apply Forall_cons in Hpre as [_ Hpre]. by exists pre, post.
Qed.

Lemma find_None_all {A} (f : A → bool) (l : list A) :
  find f l = None ↔ Forall (λ y, f y = false) l.
Proof.
  induction l as [|y l IH]; simpl; [by split|].
  destruct (f y) eqn:Hy.
  - split; [done|]. intros [Hy' _]%Forall_cons. congruence.
  - rewrite IH. split; [by constructor|]. by intros [_ ?]%Forall_cons.
Qed.

(** C4: the resolver scans the custom chains and then the built-in ones, and
    returns the first entry with the deployment's chain id; so an entry of
    the custom list wins over any built-in entry of the same id.  Without a
    match the resolver raises UNSUPPORTED_CHAIN. *)
Theorem resolveChainConfig_custom_before_builtin
    (builtinChains customChains : list ChainConfig)
    (deploymentState : DeploymentState) :
  let wanted c := bool_decide (chainId c = stateChainId deploymentState) in
  let resolved := resolveChainConfig builtinChains deploymentState customChains in
  (* a custom entry beats a built-in one of the same id *)
  (∀ custom builtin,
     custom ∈ customChains → builtin ∈ builtinChains →
     chainId custom = stateChainId deploymentState →
     chainId builtin = stateChainId deploymentState →
     ∃ c pre post,
       resolved = Ret c ∧ customChains = pre ++ c :: post ∧
       chainId c = stateChainId deploymentState ∧
       Forall (λ x, chainId x ≠ stateChainId deploymentState) pre) ∧
  (* in general: the first match of the custom list, then of the built-in list *)
  (∀ c, resolved = Ret c ↔
        ∃ pre post,
          customChains ++ builtinChains = pre ++ c :: post ∧
          chainId c = stateChainId deploymentState ∧
          Forall (λ x, chainId x ≠ stateChainId deploymentState) pre) ∧
  resolved =
    match find wanted customChains with
    | Some c => Ret c
    | None =>
        match find wanted builtinChains with
        | Some c => Ret c
        | None =>
            Throw (IgnitionError (UNSUPPORTED_CHAIN (stateChainId deploymentState)))
        end
    end.
Proof.
  intros wanted resolved.
  assert (∀ l : list ChainConfig,
            Forall (λ y, wanted y = false) l ↔
            Forall (λ x, chainId x ≠ stateChainId deploymentState) l) as Hno.
  { intros l. apply Forall_proper; [|done]. intros x. unfold wanted.
    by rewrite bool_decide_eq_false. }
  assert (resolved =
    match find wanted customChains with
    | Some c => Ret c
    | None =>
        match find wanted builtinChains with
        | Some c => Ret c
        | None =>
            Throw (IgnitionError (UNSUPPORTED_CHAIN (stateChainId deploymentState)))
        end
    end) as Hres.
  { unfold resolved, resolveChainConfig. fold wanted. rewrite find_app_first.
    by destruct (find wanted customChains). }
  split; [|split; [|exact Hres]].
  - intros custom builtin Hc _ Hid _.
    destruct (find wanted customChains) as [c|] eqn:Hfind.
    + pose proof Hfind as (pre & post & -> & Hw & Hpre)%find_Some_first.
      exists c, pre, post. repeat split; [done| |by apply Hno].
      unfold wanted in Hw. by apply bool_decide_eq_true in Hw.
    + apply find_None_all in Hfind. rewrite Forall_forall in Hfind.
      specialize (Hfind custom Hc). unfold wanted in Hfind.
      by apply bool_decide_eq_false in Hfind.
  - intros c. unfold resolved, resolveChainConfig. fold wanted.
    destruct (find wanted (customChains ++ builtinChains)) as [c'|] eqn:Hfind.
    + split.
      * intros [= <-]. apply find_Some_first in Hfind as (pre & post & ? & Hw & ?).
        exists pre, post. repeat split; [done| |by apply Hno].
        unfold wanted in Hw. by apply bool_decide_eq_true in Hw.
      * intros (pre & post & Heq & Hid & Hpre). f_equal.
        assert (find wanted (customChains ++ builtinChains) = Some c) as Hc;
          [|congruence].
        apply find_Some_first. exists pre, post. repeat split; [done| |by apply Hno].
        unfold wanted. by apply bool_decide_eq_true.
    + split; [done|]. intros (pre & post & Heq & Hid & _).
      apply find_None_all in Hfind. rewrite Heq in Hfind.
      apply Forall_app in Hfind as [_ [Hc _]%Forall_cons].
      unfold wanted in Hc. by apply bool_decide_eq_false in Hc.
Qed.

(** ** The library address resolver *)

Section LibraryFacts.

Variable libs : gmap string string.

(** The inner loop over the library names of one source path. *)
Local Abbreviation innerLoop sourceName :=
  (map_fold (λ libName (_ : list LinkReference) acc,
               a ←! acc; resolveLibrary libs sourceName libName a)).

Lemma resolveLibrary_found (s l : string) (v : JsValue)
    (acc : SourceToLibraryToAddress) :
  readAddress libs l = Some v →
  resolveLibrary libs s l acc
  = Ret (if decide (is_Some (acc !! s) ∨ s ∉ objectPrototypeMembers)
         then <[s := setProperty (default ∅ (acc !! s)) l v]> acc
         else acc).
Proof.
  unfold readAddress, resolveLibrary. intros Hl.
  assert (assertIgnitionInvariant
            match getProperty libs l with Undefined => false | _ => true end
            ("Could not find address for library " +:+ l) = Ret tt) as ->
    by (by destruct (getProperty libs l)).
  assert (match getProperty libs l with
          | Own a => JsString a
          | Inherited member => JsInherited member
          | Undefined => JsString ""
          end = v) as ->
    by (destruct (getProperty libs l); by simplify_eq).
  simpl. clear Hl. unfold getProperty.
  destruct (acc !! s) as [inner|] eqn:Hs; simpl.
  - by rewrite Hs.
  - destruct (decide (s ∈ objectPrototypeMembers)) as [Hin|Hin].
    + rewrite bool_decide_eq_true_2 by done. rewrite Hs.
      destruct (decide (is_Some None ∨ s ∉ objectPrototypeMembers))
        as [[[? [=]]|?]|?]; done.
    + rewrite bool_decide_eq_false_2 by done.
      rewrite lookup_insert_eq, insert_insert_eq.
      destruct (decide (is_Some None ∨ s ∉ objectPrototypeMembers))
        as [?|Hc]; [done|]. destruct Hc. by right.
Qed.

Lemma resolveLibrary_missing (s l : string) (acc : SourceToLibraryToAddress) :
  readAddress libs l = None →
  resolveLibrary libs s l acc = Throw (missingLibrary l).
Proof.
  unfold readAddress, resolveLibrary. intros Hl.
  by destruct (getProperty libs l).
Qed.

Lemma resolvedRefs_insert (m : gmap string (list LinkReference)) (i : string)
    (x : list LinkReference) (v : JsValue) (d : gmap string JsValue) :
  m !! i = None → readAddress libs i = Some v →
  resolvedRefs libs (<[i := x]> m) ∪ d
  = setProperty (resolvedRefs libs m ∪ d) i v.
Proof.
  intros Hi Hv. unfold resolvedRefs, setProperty.
  destruct (String.eqb i "__proto__") eqn:Hproto.
  - rewrite map_imap_insert_None by (by rewrite Hproto).
    rewrite delete_id; [done|]. by rewrite map_lookup_imap, Hi.
  - rewrite map_imap_insert_Some with (y := v) by (by rewrite Hproto).
    by rewrite insert_union_l.
Qed.

Lemma innerLoop_Throw (s : string) (e : Error)
    (refObj : gmap string (list LinkReference)) :
  innerLoop s (Throw e) refObj = Throw e.
Proof.
  apply (map_fold_weak_ind (λ r _, r = Throw e)); [done|].
  by intros i x m r _ ->.
Qed.

Lemma innerLoop_Ret (s : string) (a : SourceToLibraryToAddress)
    (refObj : gmap string (list LinkReference)) :
  match innerLoop s (Ret a) refObj with
  | Ret a' =>
      (∀ l, is_Some (refObj !! l) → is_Some (readAddress libs l)) ∧
      a' = (if decide (refObj = ∅) then a
            else if decide (is_Some (a !! s) ∨ s ∉ objectPrototypeMembers)
            then <[s := resolvedRefs libs refObj ∪ default ∅ (a !! s)]> a
            else a)
  | Throw e =>
      ∃ l, is_Some (refObj !! l) ∧ readAddress libs l = None ∧
           e = missingLibrary l
  | OutOfFuel => False
  end.
Proof.
  set (P := λ (r : outcome SourceToLibraryToAddress)
              (m : gmap string (list LinkReference)),
    match r with
    | Ret a' =>
        (∀ l, is_Some (m !! l) → is_Some (readAddress libs l)) ∧
        a' = (if decide (m = ∅) then a
              else if decide (is_Some (a !! s) ∨ s ∉ objectPrototypeMembers)
              then <[s := resolvedRefs libs m ∪ default ∅ (a !! s)]> a
              else a)
    | Throw e =>
        ∃ l, is_Some (m !! l) ∧ readAddress libs l = None ∧ e = missingLibrary l
    | OutOfFuel => False
    end).
  change (P (innerLoop s (Ret a) refObj) refObj).
  apply (map_fold_weak_ind P); unfold P; clear P.
  - split; [|done]. intros l. rewrite lookup_empty. by intros [? ?].
  - intros i x m r Hi IH. destruct r as [a'|e|]; simpl; [| |done].
    + destruct IH as [Hall ->].
      destruct (readAddress libs i) as [v|] eqn:Hlib.
      * rewrite (resolveLibrary_found _ _ v) by done. split.
        { intros l. destruct (decide (l = i)) as [->|Hne].
          - by rewrite Hlib.
          - rewrite lookup_insert_ne by done. apply Hall. }
        destruct (decide (<[i:=x]> m = ∅)) as [Hemp|_];
          [by apply insert_non_empty in Hemp|].
        rewrite (resolvedRefs_insert m i x v) by done.
        destruct (decide (is_Some (a !! s) ∨ s ∉ objectPrototypeMembers))
          as [Hc|Hc].
        -- destruct (decide (m = ∅)) as [->|Hm].
           ++ rewrite decide_True by done. unfold resolvedRefs.
              by rewrite map_imap_empty, (left_id_L ∅ (∪)).
           ++ rewrite decide_True by (left; by rewrite lookup_insert_eq).
              rewrite lookup_insert_eq. simpl. by rewrite insert_insert_eq.
        -- destruct (decide (m = ∅)) as [->|Hm]; by rewrite decide_False.
      * rewrite resolveLibrary_missing by done.
        exists i. by rewrite lookup_insert_eq.
    + destruct IH as (l & Hl & Hnone & ->). exists l. split; [|done].
      destruct (decide (l = i)) as [->|Hne].
      * by rewrite lookup_insert_eq.
      * by rewrite lookup_insert_ne.
Qed.

(** The two loops of [resolveLibraryInfoForArtifact]. *)
Lemma resolveLoops (linkRefs : gmap string (gmap string (list LinkReference))) :
  match map_fold (λ sourceName refObj acc, innerLoop sourceName acc refObj)
          (Ret ∅) linkRefs with
  | Ret a =>
      (∀ s refObj l, linkRefs !! s = Some refObj → is_Some (refObj !! l) →
                     is_Some (readAddress libs l)) ∧
      a = resolvedLinkReferences libs linkRefs
  | Throw e =>
      ∃ s refObj l, linkRefs !! s = Some refObj ∧ is_Some (refObj !! l) ∧
                    readAddress libs l = None ∧ e = missingLibrary l
  | OutOfFuel => False
  end.
Proof.
  set (Q := λ (r : outcome SourceToLibraryToAddress)
              (M : gmap string (gmap string (list LinkReference))),
    match r with
    | Ret a =>
        (∀ s refObj l, M !! s = Some refObj → is_Some (refObj !! l) →
                       is_Some (readAddress libs l)) ∧
        a = resolvedLinkReferences libs M
    | Throw e =>
        ∃ s refObj l, M !! s = Some refObj ∧ is_Some (refObj !! l) ∧
                      readAddress libs l = None ∧ e = missingLibrary l
    | OutOfFuel => False
    end).
  match goal with |- match ?r with _ => _ end => change (Q r linkRefs) end.
  apply (map_fold_weak_ind Q); unfold Q; clear Q.
  - split; [|by unfold resolvedLinkReferences; rewrite map_imap_empty].
    intros s refObj l. by rewrite lookup_empty.
  - intros s x M r Hs IH. destruct r as [a|e|]; [| |done].
    + destruct IH as [Hall ->].
      pose proof (innerLoop_Ret s (resolvedLinkReferences libs M) x) as Hinner.
      destruct (innerLoop s _ x) as [a'|e|]; [| |done].
      * destruct Hinner as [Hx ->]. split.
        { intros s' refObj l. destruct (decide (s' = s)) as [->|Hne].
          - rewrite lookup_insert_eq. intros [= <-]. apply Hx.
          - rewrite lookup_insert_ne by done. apply Hall. }
        assert (resolvedLinkReferences libs M !! s = None) as Hnone.
        { unfold resolvedLinkReferences. by rewrite map_lookup_imap, Hs. }
        rewrite Hnone. unfold resolvedLinkReferences in *.
        destruct (decide (x = ∅)) as [->|Hx'].
        -- rewrite map_imap_insert_None by (rewrite decide_True; [done|by left]).
           rewrite delete_id; [done|]. exact Hnone.
        -- destruct (decide (s ∈ objectPrototypeMembers)) as [Hin|Hin].
           ++ rewrite decide_False by (intros [[? [=]]|?]; done).
              rewrite map_imap_insert_None
                by (rewrite decide_True; [done|by right]).
              rewrite delete_id; [done|]. exact Hnone.
           ++ rewrite decide_True by (by right).
              rewrite map_imap_insert_Some with (y := resolvedRefs libs x)
                by (rewrite decide_False; [done|by intros [?|?]]).
              simpl. by rewrite (right_id_L ∅ (∪)).
      * destruct Hinner as (l & Hl & Hlib & ->).
        exists s, x, l. by rewrite lookup_insert_eq.
    + destruct IH as (s' & refObj & l & Hs' & Hl & Hlib & ->).
      rewrite innerLoop_Throw. exists s', refObj, l. split; [|done].
      rewrite lookup_insert_ne; [done|]. intros ->. congruence.
Qed.

End LibraryFacts.

Lemma readAddress_own (libs : gmap string string) (l addr : string) :
  libs !! l = Some addr → readAddress libs l = Some (JsString addr).
Proof. intros H. unfold readAddress, getProperty. by rewrite H. Qed.

Lemma readAddress_None (libs : gmap string string) (l : string) :
  readAddress libs l = None ↔ libs !! l = None ∧ l ∉ objectPrototypeMembers.
Proof.
  unfold readAddress, getProperty. destruct (libs !! l) as [a|].
  - split; [done|]. by intros [? _].
  - destruct (decide (l ∈ objectPrototypeMembers)) as [Hin|Hin].
    + rewrite bool_decide_eq_true_2 by done. split; [done|]. by intros [_ ?].
    + by rewrite bool_decide_eq_false_2 by done.
Qed.

Lemma resolvedLinkReferences_empty (libs : gmap string string)
    (linkRefs : gmap string (gmap string (list LinkReference))) :
  resolvedLinkReferences libs linkRefs = ∅ ↔
  ∀ s refObj, linkRefs !! s = Some refObj →
              refObj = ∅ ∨ s ∈ objectPrototypeMembers.
Proof.
  rewrite map_empty. unfold resolvedLinkReferences. split.
  - intros H s refObj Hs. specialize (H s). rewrite map_lookup_imap, Hs in H.
    simpl in H.
    by destruct (decide (refObj = ∅ ∨ s ∈ objectPrototypeMembers)).
  - intros H s. rewrite map_lookup_imap.
    destruct (linkRefs !! s) as [refObj|] eqn:Hs; simpl; [|done].
    by rewrite decide_True by eauto.
Qed.

(** The resolved mapping for link references with ordinary names, all of
    whose libraries have an address. *)
Lemma resolvedLinkReferences_lookup (libs : gmap string string)
    (linkRefs : gmap string (gmap string (list LinkReference))) (s l : string) :
  ordinaryNames linkRefs →
  (∀ s refObj l, linkRefs !! s = Some refObj → is_Some (refObj !! l) →
                 is_Some (libs !! l)) →
  resolvedLinkReferences libs linkRefs !! s ≫= (.!! l)
  = linkRefs !! s ≫= (λ refObj, refObj !! l ≫= λ _, JsString <$> libs !! l).
Proof.
  intros Hord Hall. unfold resolvedLinkReferences. rewrite map_lookup_imap.
  destruct (linkRefs !! s) as [refObj|] eqn:Hs; simpl; [|done].
  destruct (refObj !! l) as [x|] eqn:Hl; simpl.
  - destruct (Hord s refObj l Hs) as [Hplain Hproto]; [by eexists|].
    destruct (Hall s refObj l Hs) as [addr Haddr]; [by eexists|].
    rewrite decide_False.
    2:{ intros [->|?]; [by rewrite lookup_empty in Hl|done]. }
    simpl. unfold resolvedRefs. rewrite map_lookup_imap, Hl. simpl.
    apply String.eqb_neq in Hproto. rewrite Hproto.
    by rewrite (readAddress_own _ _ addr), Haddr.
  - destruct (decide (refObj = ∅ ∨ s ∈ objectPrototypeMembers)); simpl;
      [done|].
    unfold resolvedRefs. by rewrite map_lookup_imap, Hl.
Qed.

Lemma resolvedLinkReferences_inner (libs : gmap string string)
    (linkRefs : gmap string (gmap string (list LinkReference)))
    (s : string) (inner : gmap string JsValue) :
  ordinaryNames linkRefs →
  (∀ s refObj l, linkRefs !! s = Some refObj → is_Some (refObj !! l) →
                 is_Some (libs !! l)) →
  resolvedLinkReferences libs linkRefs !! s = Some inner → inner ≠ ∅.
Proof.
  intros Hord Hall Hs Hemp.
  unfold resolvedLinkReferences in Hs. rewrite map_lookup_imap in Hs.
  destruct (linkRefs !! s) as [refObj|] eqn:Hrefs; simpl in Hs; [|done].
  destruct (decide (refObj = ∅ ∨ s ∈ objectPrototypeMembers)) as [|Hne];
    [done|].
  injection Hs as <-.
  assert (refObj ≠ ∅) as Hne' by (intros ->; apply Hne; by left).
  destruct (map_choose _ Hne') as (l & x & Hl).
  pose proof (resolvedLinkReferences_lookup libs linkRefs s l Hord Hall) as H.
  unfold resolvedLinkReferences in H. rewrite map_lookup_imap, Hrefs in H.
  simpl in H. rewrite decide_False in H by done. simpl in H.
  rewrite Hemp, lookup_empty, Hl in H. simpl in H.
  destruct (Hall s refObj l Hrefs) as [addr Haddr]; [by eexists|].
  by rewrite Haddr in H.
Qed.

(** What [resolveLibraryInfoForArtifact] returns when the read of every
    referenced library finds a value. *)
Lemma resolveLibraryInfoForArtifact_complete (artifact : Artifact)
    (libs : gmap string string) :
  (∀ s refObj l, linkReferences artifact !! s = Some refObj →
                 is_Some (refObj !! l) → is_Some (readAddress libs l)) →
  resolveLibraryInfoForArtifact artifact libs
  = Ret (if decide (resolvedLinkReferences libs (linkReferences artifact) = ∅)
         then None
         else Some (resolvedLinkReferences libs (linkReferences artifact))).
Proof.
  intros Hall. unfold resolveLibraryInfoForArtifact.
  pose proof (resolveLoops libs (linkReferences artifact)) as H.
  destruct (map_fold _ _ _) as [a|e|]; simpl; [| |done].
  - destruct H as [_ ->].
    destruct (decide (resolvedLinkReferences libs (linkReferences artifact) = ∅))
      as [Hemp|Hne].
    + rewrite bool_decide_eq_true_2; [done|]. by apply map_to_list_empty_iff.
    + rewrite bool_decide_eq_false_2; [done|]. by rewrite map_to_list_empty_iff.
  - destruct H as (s & refObj & l & Hs & Hl & Hnone & _).
    destruct (Hall s refObj l Hs Hl) as [addr Haddr]. congruence.
Qed.

(** What it does when the read of some referenced library finds none. *)
Lemma resolveLibraryInfoForArtifact_missing (artifact : Artifact)
    (libs : gmap string string) :
  (∃ s refObj l, linkReferences artifact !! s = Some refObj ∧
                 is_Some (refObj !! l) ∧ readAddress libs l = None) →
  ∃ s refObj l, linkReferences artifact !! s = Some refObj ∧
                is_Some (refObj !! l) ∧ readAddress libs l = None ∧
                resolveLibraryInfoForArtifact artifact libs
                = Throw (missingLibrary l).
Proof.
  intros (s0 & refObj0 & l0 & Hs0 & Hl0 & Hnone0).
  unfold resolveLibraryInfoForArtifact.
  pose proof (resolveLoops libs (linkReferences artifact)) as H.
  destruct (map_fold _ _ _) as [a|e|]; simpl; [| |done].
  - destruct H as [Hall _].
    destruct (Hall s0 refObj0 l0 Hs0 Hl0) as [addr Haddr]. congruence.
  - destruct H as (s & refObj & l & Hs & Hl & Hnone & ->).
    by exists s, refObj, l.
Qed.

(** Link references that name no library resolve to null. *)
Lemma resolveLibraryInfoForArtifact_hollow (artifact : Artifact)
    (libs : gmap string string) :
  (∀ s refObj, linkReferences artifact !! s = Some refObj → refObj = ∅) →
  resolveLibraryInfoForArtifact artifact libs = Ret None.
Proof.
  intros Ha. rewrite resolveLibraryInfoForArtifact_complete.
  - rewrite decide_True; [done|]. apply resolvedLinkReferences_empty.
    intros s refObj Hs. left. by apply (Ha s).
  - intros s refObj l Hs [x Hl]. rewrite (Ha s refObj Hs) in Hl.
    by rewrite lookup_empty in Hl.
Qed.

Lemma prepareInputBasedOn_null (buildInfo : loc) (artifact : Artifact)
    (libs : gmap string string) (σ : Store) :
  resolveLibraryInfoForArtifact artifact libs = Ret None →
  prepareInputBasedOn buildInfo artifact libs σ = (Ret (InputOf buildInfo), σ).
Proof. intros H. unfold prepareInputBasedOn, mbind, liftO. by rewrite H. Qed.

Lemma prepareInputBasedOn_throw (buildInfo : loc) (artifact : Artifact)
    (libs : gmap string string) (σ : Store) (e : Error) :
  resolveLibraryInfoForArtifact artifact libs = Throw e →
  prepareInputBasedOn buildInfo artifact libs σ = (Throw e, σ).
Proof. intros H. unfold prepareInputBasedOn, mbind, liftO. by rewrite H. Qed.

Lemma prepareInputBasedOn_some (buildInfo : loc) (artifact : Artifact)
    (libs : gmap string string) (σ : Store) (bi : BuildInfo)
    (m : SourceToLibraryToAddress) :
  resolveLibraryInfoForArtifact artifact libs = Ret (Some m) →
  σ !! buildInfo = Some bi →
  prepareInputBasedOn buildInfo artifact libs σ
  = (Ret (InputOf buildInfo),
     <[buildInfo := {| solcLongVersion := solcLongVersion bi;
                       input := setSettingsLibraries m (input bi) |}]> σ).
Proof.
  intros H Hb. unfold prepareInputBasedOn, mbind, liftO, updateInput, mret.
  by rewrite H, Hb.
Qed.

Lemma resolvedRefs_singleton (libs : gmap string string) (l : string)
    (refs : list LinkReference) :
  resolvedRefs libs {[l := refs]}
  = if String.eqb l "__proto__" then ∅
    else match readAddress libs l with
         | Some v => {[l := v]}
         | None => ∅
         end.
Proof.
  unfold resolvedRefs. rewrite <- insert_empty, map_imap_insert, map_imap_empty.
  destruct (String.eqb l "__proto__"); [by rewrite delete_empty|].
  destruct (readAddress libs l); [done|by rewrite delete_empty].
Qed.

Lemma resolvedLinkReferences_singleton (libs : gmap string string) (s : string)
    (refObj : gmap string (list LinkReference)) :
  refObj ≠ ∅ → s ∉ objectPrototypeMembers →
  resolvedLinkReferences libs {[s := refObj]} = {[s := resolvedRefs libs refObj]}.
Proof.
  intros Hne Hs. unfold resolvedLinkReferences.
  rewrite <- insert_empty.
  rewrite map_imap_insert_Some with (y := resolvedRefs libs refObj)
    by (rewrite decide_False; [done|by intros [?|?]]).
  by rewrite map_imap_empty.
Qed.

(** Resolution of link references that name one library. *)
Lemma resolveLibraryInfoForArtifact_singleton (artifact : Artifact)
    (libs : gmap string string) (s l : string) (refs : list LinkReference)
    (v : JsValue) :
  s ∉ objectPrototypeMembers →
  linkReferences artifact = {[s := {[l := refs]}]} →
  readAddress libs l = Some v →
  resolveLibraryInfoForArtifact artifact libs
  = Ret (Some {[s := if String.eqb l "__proto__" then ∅ else {[l := v]}]}).
Proof.
  intros Hs Hlink Hv. rewrite resolveLibraryInfoForArtifact_complete.
  - rewrite Hlink, resolvedLinkReferences_singleton, resolvedRefs_singleton, Hv;
      [|by apply insert_non_empty|done].
    rewrite decide_False; [done|]. apply insert_non_empty.
  - intros s' refObj l' Hs' [x Hl']. rewrite Hlink in Hs'.
    apply lookup_singleton_Some in Hs' as [<- <-].
    apply lookup_singleton_Some in Hl' as [<- _]. by rewrite Hv.
Qed.

(** C5: library resolution when every library named by the link references
    has an address.  For link references with ordinary names it yields, for
    each source path and each of its library names, that library's address,
    and nothing else; it yields null exactly when the link references name
    no library, and the compiler input then stays as it was; otherwise the
    [libraries] of the input's settings become the resolved mapping,
    whatever they were before, and the rest of the input is kept.  A
    library named [__proto__] is lost, although it has an address: the
    write under that name stores nothing, and the mapping that is injected
    has an empty entry for its source path. *)
Theorem library_resolution_yields_addresses :
  (∀ (artifact : Artifact) (libs : gmap string string) (buildInfo : loc)
     (bi : BuildInfo) (σ : Store),
     ordinaryNames (linkReferences artifact) →
     (∀ s refObj l, linkReferences artifact !! s = Some refObj →
                    is_Some (refObj !! l) → is_Some (libs !! l)) →
     σ !! buildInfo = Some bi →
     ∃ resolved : option SourceToLibraryToAddress,
       resolveLibraryInfoForArtifact artifact libs = Ret resolved ∧
       (∀ s l, default ∅ resolved !! s ≫= (.!! l)
               = linkReferences artifact !! s ≫=
                   (λ refObj, refObj !! l ≫= λ _, JsString <$> libs !! l)) ∧
       (∀ m s inner, resolved = Some m → m !! s = Some inner → inner ≠ ∅) ∧
       (resolved = None ↔
        ∀ s refObj, linkReferences artifact !! s = Some refObj → refObj = ∅) ∧
       prepareInputBasedOn buildInfo artifact libs σ
       = (Ret (InputOf buildInfo),
          match resolved with
          | None => σ
          | Some m =>
              <[buildInfo :=
                  {| solcLongVersion := solcLongVersion bi;
                     input :=
                       {| language := language (input bi);
                          sources := sources (input bi);
                          settings :=
                            {| libraries := Some m;
                               otherSettings :=
                                 otherSettings (settings (input bi)) |}
                       |} |}]> σ
          end)) ∧
  (∀ (artifact : Artifact) (s addr : string) (refs : list LinkReference)
     (buildInfo : loc) (bi : BuildInfo) (σ : Store),
     s ∉ objectPrototypeMembers →
     linkReferences artifact = {[s := {["__proto__" := refs]}]} →
     σ !! buildInfo = Some bi →
     resolveLibraryInfoForArtifact artifact {["__proto__" := addr]}
     = Ret (Some {[s := ∅]}) ∧
     prepareInputBasedOn buildInfo artifact {["__proto__" := addr]} σ
     = (Ret (InputOf buildInfo),
        <[buildInfo :=
            {| solcLongVersion := solcLongVersion bi;
               input := setSettingsLibraries {[s := ∅]} (input bi) |}]> σ)).
Proof.
  split.
  - intros artifact libs buildInfo bi σ Hord Hall Hb.
    assert (∀ s refObj l, linkReferences artifact !! s = Some refObj →
              is_Some (refObj !! l) → is_Some (readAddress libs l)) as Hread.
    { intros s refObj l Hs Hl. destruct (Hall s refObj l Hs Hl) as [addr Haddr].
      rewrite (readAddress_own _ _ addr) by done. by eexists. }
    pose proof (resolveLibraryInfoForArtifact_complete artifact libs Hread)
      as Hres.
    assert (resolvedLinkReferences libs (linkReferences artifact) = ∅ ↔
            ∀ s refObj, linkReferences artifact !! s = Some refObj → refObj = ∅)
      as Hempty.
    { rewrite resolvedLinkReferences_empty. split.
      - intros H s refObj Hs. destruct (H s refObj Hs) as [?|Hin]; [done|].
        destruct (decide (refObj = ∅)) as [?|Hne]; [done|].
        destruct (map_choose _ Hne) as (l & x & Hl).
        destruct (Hord s refObj l Hs) as [Hplain _]; [by eexists|]. done.
      - intros H s refObj Hs. left. by apply (H s). }
    destruct (decide (resolvedLinkReferences libs (linkReferences artifact) = ∅))
      as [Hemp|Hne].
    + exists None. split; [done|]. split; [|split; [|split]].
      * intros s l. simpl. rewrite lookup_empty. simpl.
        rewrite <- resolvedLinkReferences_lookup by done.
        by rewrite Hemp, lookup_empty.
      * done.
      * split; [|done]. intros _. by apply Hempty.
      * by apply prepareInputBasedOn_null.
    + exists (Some (resolvedLinkReferences libs (linkReferences artifact))).
      split; [done|]. split; [|split; [|split]].
      * intros s l. simpl. by apply resolvedLinkReferences_lookup.
      * intros m s inner [= <-]. by apply resolvedLinkReferences_inner.
      * split; [done|]. intros H. by apply Hempty in H.
      * by apply prepareInputBasedOn_some.
  - intros artifact s addr refs buildInfo bi σ Hs Hlink Hb.
    assert (resolveLibraryInfoForArtifact artifact {["__proto__" := addr]}
            = Ret (Some {[s := ∅]})) as Hres.
    { rewrite (resolveLibraryInfoForArtifact_singleton artifact _ s "__proto__"
                 refs (JsString addr)); [done..|].
      apply readAddress_own, lookup_singleton_eq. }
    split; [done|]. by apply prepareInputBasedOn_some.
Qed.

(** The example of the claim: link references [{Lib.sol: {MathLib: ...}}]
    and libraries [{MathLib: 0xabc}]; and link references
    [{Lib.sol: {__proto__: ...}}] with libraries [{__proto__: 0xabc}]. *)
Lemma library_resolution_yields_addresses_witness :
  resolveLibraryInfoForArtifact Fixture.mathArtifact {["MathLib" := "0xabc"]}
    = Ret (Some {["Lib.sol" := {["MathLib" := JsString "0xabc"]}]}) ∧
  (∃ resolved : option SourceToLibraryToAddress,
    resolveLibraryInfoForArtifact Fixture.mathArtifact {["MathLib" := "0xabc"]}
      = Ret resolved ∧
    (∀ s l, default ∅ resolved !! s ≫= (.!! l)
            = linkReferences Fixture.mathArtifact !! s ≫=
                (λ refObj, refObj !! l ≫=
                   λ _, JsString <$>
                          ({["MathLib" := "0xabc"]} : gmap string string) !! l)) ∧
    (∀ m s inner, resolved = Some m → m !! s = Some inner → inner ≠ ∅) ∧
    (resolved = None ↔
     ∀ s refObj, linkReferences Fixture.mathArtifact !! s = Some refObj →
                 refObj = ∅) ∧
    prepareInputBasedOn 1%positive Fixture.mathArtifact {["MathLib" := "0xabc"]}
      Fixture.store1
    = (Ret (InputOf 1%positive),
       match resolved with
       | None => Fixture.store1
       | Some m =>
           <[1%positive :=
               {| solcLongVersion := solcLongVersion Fixture.deployed;
                  input :=
                    {| language := language (input Fixture.deployed);
                       sources := sources (input Fixture.deployed);
                       settings :=
                         {| libraries := Some m;
                            otherSettings :=
                              otherSettings (settings (input Fixture.deployed)) |}
                    |} |}]> Fixture.store1
       end)) ∧
  resolveLibraryInfoForArtifact Fixture.protoArtifact {["__proto__" := "0xabc"]}
    = Ret (Some {["Lib.sol" := ∅]}).
Proof.
  split; [vm_compute; reflexivity|]. split.
  - apply (proj1 library_resolution_yields_addresses Fixture.mathArtifact
             {["MathLib" := "0xabc"]} 1%positive Fixture.deployed Fixture.store1).
    + intros s refObj l Hs Hl. simpl in Hs.
      apply lookup_singleton_Some in Hs as [<- <-].
      destruct Hl as [x Hl]. apply lookup_singleton_Some in Hl as [<- _].
      split; [compute_done|done].
    + intros s refObj l Hs Hl. simpl in Hs.
      apply lookup_singleton_Some in Hs as [<- <-].
      destruct Hl as [x Hl]. apply lookup_singleton_Some in Hl as [<- _].
      rewrite lookup_singleton_eq. by eexists.
    + reflexivity.
  - apply (proj2 library_resolution_yields_addresses Fixture.protoArtifact
             "Lib.sol" "0xabc" [{| refStart := 10; refLength := 20 |}]
             1%positive Fixture.deployed Fixture.store1).
    + compute_done.
    + reflexivity.
    + reflexivity.
Defined.

(** C6: a library named by the link references without an address among
    the deployment's libraries.  When its name is not the name of a member
    of [Object.prototype], resolution fails the invariant for such a
    library; no mapping, partial or not, is produced, and the preparation of
    the compiler input fails in the same way without touching the input
    (stated for link references whose source paths are not names of such
    members either, the ones for which every write of the resolver is
    followed).  When its name is the name of such a member, the read
    [libraries[name]] finds that member, the invariant holds, and
    resolution returns a mapping with that member in the place of the
    address, or with nothing for a library named [__proto__]. *)
Theorem missing_library_fails_invariant :
  (∀ (artifact : Artifact) (libs : gmap string string),
     (∀ s, is_Some (linkReferences artifact !! s) →
           s ∉ objectPrototypeMembers) →
     (∃ s refObj l, linkReferences artifact !! s = Some refObj ∧
                    is_Some (refObj !! l) ∧ libs !! l = None ∧
                    (l ∉ objectPrototypeMembers)) →
     ∃ s refObj l,
       linkReferences artifact !! s = Some refObj ∧ is_Some (refObj !! l) ∧
       libs !! l = None ∧ (l ∉ objectPrototypeMembers) ∧
       resolveLibraryInfoForArtifact artifact libs
       = Throw (IgnitionInvariantError
                  ("Could not find address for library " +:+ l)) ∧
       ∀ buildInfo σ,
         prepareInputBasedOn buildInfo artifact libs σ
         = (Throw (IgnitionInvariantError
                     ("Could not find address for library " +:+ l)), σ)) ∧
  (∀ (artifact : Artifact) (libs : gmap string string) (s l : string)
     (refs : list LinkReference) (buildInfo : loc) (bi : BuildInfo) (σ : Store),
     s ∉ objectPrototypeMembers →
     linkReferences artifact = {[s := {[l := refs]}]} →
     libs !! l = None → l ∈ objectPrototypeMembers →
     σ !! buildInfo = Some bi →
     let resolved : SourceToLibraryToAddress :=
       {[s := if String.eqb l "__proto__" then ∅
              else {[l := JsInherited l]}]} in
     resolveLibraryInfoForArtifact artifact libs = Ret (Some resolved) ∧
     prepareInputBasedOn buildInfo artifact libs σ
     = (Ret (InputOf buildInfo),
        <[buildInfo :=
            {| solcLongVersion := solcLongVersion bi;
               input := setSettingsLibraries resolved (input bi) |}]> σ)).
Proof.
  split.
  - intros artifact libs _ (s0 & refObj0 & l0 & Hs0 & Hl0 & Hnone0 & Hplain0).
    destruct (resolveLibraryInfoForArtifact_missing artifact libs)
      as (s & refObj & l & Hs & Hl & Hnone & Hthrow).
    { exists s0, refObj0, l0. do 2 (split; [done|]).
      by apply readAddress_None. }
    apply readAddress_None in Hnone as [Hnone Hplain].
    exists s, refObj, l. do 5 (split; [done|]).
    intros buildInfo σ. by apply prepareInputBasedOn_throw.
  - intros artifact libs s l refs buildInfo bi σ Hs Hlink Hnone Hin Hb resolved.
    assert (resolveLibraryInfoForArtifact artifact libs = Ret (Some resolved))
      as Hres.
    { apply (resolveLibraryInfoForArtifact_singleton artifact libs s l refs);
        [done..|].
      unfold readAddress, getProperty.
      by rewrite Hnone, bool_decide_eq_true_2. }
    split; [done|]. by apply prepareInputBasedOn_some.
Qed.

(** Link references [{Lib.sol: {Lib: ...}}] with libraries [{Other: 0xdef}],
    and link references [{Lib.sol: {toString: ...}}] with the same
    libraries. *)
Lemma missing_library_fails_invariant_witness :
  (∃ s refObj l,
    linkReferences Fixture.artifactA !! s = Some refObj ∧ is_Some (refObj !! l) ∧
    ({["Other" := "0xdef"]} : gmap string string) !! l = None ∧
    (l ∉ objectPrototypeMembers) ∧
    resolveLibraryInfoForArtifact Fixture.artifactA {["Other" := "0xdef"]}
    = Throw (IgnitionInvariantError
               ("Could not find address for library " +:+ l)) ∧
    ∀ buildInfo σ,
      prepareInputBasedOn buildInfo Fixture.artifactA {["Other" := "0xdef"]} σ
      = (Throw (IgnitionInvariantError
                  ("Could not find address for library " +:+ l)), σ)) ∧
  resolveLibraryInfoForArtifact Fixture.toStringArtifact {["Other" := "0xdef"]}
  = Ret (Some {["Lib.sol" := {["toString" := JsInherited "toString"]}]}) ∧
  prepareInputBasedOn 1%positive Fixture.toStringArtifact {["Other" := "0xdef"]}
    Fixture.store1
  = (Ret (InputOf 1%positive),
     <[1%positive :=
         {| solcLongVersion := solcLongVersion Fixture.deployed;
            input :=
              setSettingsLibraries
                {["Lib.sol" := {["toString" := JsInherited "toString"]}]}
                (input Fixture.deployed) |}]> Fixture.store1).
Proof.
  split.
  - apply (proj1 missing_library_fails_invariant Fixture.artifactA
             {["Other" := "0xdef"]}).
    + intros s [refObj Hs]. simpl in Hs.
      apply lookup_singleton_Some in Hs as [<- _]. compute_done.
    + exists "Lib.sol", {["Lib" := [{| refStart := 10; refLength := 20 |}]]},
        "Lib".
      split; [reflexivity|]. split; [vm_compute; eauto|].
      split; [reflexivity|compute_done].
  - apply (proj2 missing_library_fails_invariant Fixture.toStringArtifact
             {["Other" := "0xdef"]} "Lib.sol" "toString"
             [{| refStart := 10; refLength := 20 |}] 1%positive
             Fixture.deployed Fixture.store1).
    + compute_done.
    + reflexivity.
    + reflexivity.
    + compute_done.
    + reflexivity.
Defined.

(** C10: link references that name source paths but no library resolve to
    null, as link references that are empty do, and the compiler input is
    handed back as it is, with nothing written to its settings. *)
Theorem hollow_link_references_yield_null (artifact : Artifact)
    (libs : gmap string string) :
  linkReferences artifact ≠ ∅ →
  (∀ s refObj, linkReferences artifact !! s = Some refObj → refObj = ∅) →
  resolveLibraryInfoForArtifact artifact libs = Ret None ∧
  (∀ artifact', linkReferences artifact' = ∅ →
     resolveLibraryInfoForArtifact artifact' libs
     = resolveLibraryInfoForArtifact artifact libs) ∧
  (∀ buildInfo σ,
     prepareInputBasedOn buildInfo artifact libs σ = (Ret (InputOf buildInfo), σ)).
Proof.
  intros _ Hhollow.
  assert (∀ a : Artifact,
            (∀ s refObj, linkReferences a !! s = Some refObj → refObj = ∅) →
            resolveLibraryInfoForArtifact a libs = Ret None) as Hnull.
  { intros a Ha. by apply resolveLibraryInfoForArtifact_hollow. }
  split; [by apply Hnull|]. split.
  - intros artifact' Hemp. rewrite (Hnull artifact Hhollow). apply Hnull.
    intros s refObj. by rewrite Hemp, lookup_empty.
  - intros buildInfo σ. apply prepareInputBasedOn_null. by apply Hnull.
Qed.

Lemma hollow_link_references_yield_null_witness :
  resolveLibraryInfoForArtifact Fixture.hollowArtifact {["Lib" := "0xabc"]}
    = Ret None ∧
  (∀ artifact', linkReferences artifact' = ∅ →
     resolveLibraryInfoForArtifact artifact' {["Lib" := "0xabc"]}
     = resolveLibraryInfoForArtifact Fixture.hollowArtifact {["Lib" := "0xabc"]}) ∧
  (∀ buildInfo σ,
     prepareInputBasedOn buildInfo Fixture.hollowArtifact {["Lib" := "0xabc"]} σ
     = (Ret (InputOf buildInfo), σ)).
Proof.
  apply (hollow_link_references_yield_null Fixture.hollowArtifact
           {["Lib" := "0xabc"]}).
  - simpl. apply insert_non_empty.
  - intros s refObj Hs. simpl in Hs.
    by apply lookup_singleton_Some in Hs as [_ <-].
Defined.

(** ** Pruning of the sources *)

Lemma pruneSources_lookup (sourceNames : list string)
    (srcs : gmap string Source) (k : string) :
  pruneSources sourceNames srcs !! k
  = if bool_decide (k ∈ sourceNames) then srcs !! k else None.
Proof.
  unfold pruneSources.
  set (P := λ (r m : gmap string Source),
    ∀ k, r !! k = match m !! k with
                  | Some _ => if bool_decide (k ∈ sourceNames) then srcs !! k
                              else None
                  | None => srcs !! k
                  end).
  assert (P (map_fold (λ source (_ : Source) acc,
               if bool_decide (source ∈ sourceNames) then acc
               else delete source acc) srcs srcs) srcs) as H.
  { apply (map_fold_weak_ind P); unfold P; clear P.
    - intros k'. by rewrite lookup_empty.
    - intros i x m r Hi IH k'. destruct (decide (k' = i)) as [->|Hne].
      + rewrite lookup_insert_eq. specialize (IH i). rewrite Hi in IH.
        destruct (bool_decide (i ∈ sourceNames)); [done|].
        by rewrite lookup_delete_eq.
      + rewrite lookup_insert_ne by done. rewrite <- IH.
        destruct (bool_decide (i ∈ sourceNames)); [done|].
        by rewrite lookup_delete_ne. }
  rewrite (H k). destruct (srcs !! k) eqn:Hk; [done|].
  by destruct (bool_decide (k ∈ sourceNames)).
Qed.

Lemma pruneSources_dom (sourceNames : list string) (srcs : gmap string Source) :
  Forall (λ x, is_Some (srcs !! x)) sourceNames →
  dom (pruneSources sourceNames srcs) = list_to_set sourceNames.
Proof.
  intros Hin. apply set_eq. intros k.
  rewrite elem_of_dom, pruneSources_lookup, elem_of_list_to_set.
  destruct (bool_decide (k ∈ sourceNames)) eqn:Hk.
  - apply bool_decide_eq_true in Hk. rewrite Forall_forall in Hin. naive_solver.
  - apply bool_decide_eq_false in Hk. split; [by intros [? ?]|done].
Qed.

(** ** The per-record conversion *)

Lemma mbind_Ret_inv {A B} (m : M A) (k : A → M B) (σ σ' : Store) (v : B) :
  mbind m k σ = (Ret v, σ') →
  ∃ a σ1, m σ = (Ret a, σ1) ∧ k a σ1 = (Ret v, σ').
Proof.
  unfold mbind. destruct (m σ) as [[a|e|] σ1]; [|done..].
  intros H. by exists a, σ1.
Qed.

Lemma mbind_Ret_step {A B} (m : M A) (k : A → M B) (σ σ1 : Store) (a : A) :
  m σ = (Ret a, σ1) → mbind m k σ = k a σ1.
Proof. intros H. unfold mbind. by rewrite H. Qed.

Lemma prepareInputBasedOn_Ret_inv (buildInfo : loc) (artifact : Artifact)
    (libs : gmap string string) (σ σ' : Store) (r : InputRef) :
  prepareInputBasedOn buildInfo artifact libs σ = (Ret r, σ') →
  r = InputOf buildInfo ∧
  ∃ resolved, resolveLibraryInfoForArtifact artifact libs = Ret resolved ∧
    match resolved with
    | None => σ' = σ
    | Some m =>
        ∃ bi, σ !! buildInfo = Some bi ∧
          σ' = <[buildInfo := {| solcLongVersion := solcLongVersion bi;
                                 input := setSettingsLibraries m (input bi) |}]> σ
    end.
Proof.
  unfold prepareInputBasedOn, mbind, liftO, mret, updateInput.
  destruct (resolveLibraryInfoForArtifact artifact libs) as [[m|]| |]; [| |done..].
  - destruct (σ !! buildInfo) as [bi|] eqn:Hb; [|done].
    intros [= <- <-]. split; [done|]. exists (Some m). split; [done|].
    by exists bi.
  - intros [= <- <-]. split; [done|]. by exists None.
Qed.

Section ConvertFacts.

Variable analyze : string → list string.
Variable path_join : list string → string.
Variable path_dirname : string → string.
Variable encodeDeploymentArguments : Artifact → list string → outcome string.

Local Abbreviation convert :=
  (convertExStateToVerifyInfo analyze path_join path_dirname
     encodeDeploymentArguments).
Local Abbreviation closureOf := (getImportSourceNames analyze path_join path_dirname).

(** What a conversion that returns has done: the loads, the checks, the
    input it serialised and the store it leaves. *)
Lemma convert_Ret_inv (fuel : nat) (exState : DeploymentExecutionState)
    (loader : DeploymentLoader) (includeUnrelatedContracts : bool)
    (σ σ' : Store) (vi : VerifyInfo) :
  convert fuel exState loader includeUnrelatedContracts σ = (Ret vi, σ') →
  ∃ b σ1 bi artifact r resolved,
    readBuildInfo loader (artifactId exState) σ = (Ret b, σ1) ∧
    loadArtifact loader (artifactId exState) = Ret artifact ∧
    result exState = Some r ∧ resultType r = ExecutionResultType.SUCCESS ∧
    resolveLibraryInfoForArtifact artifact (exLibraries exState) = Ret resolved ∧
    σ1 !! b = Some bi ∧
    (let prepared := match resolved with
                     | None => input bi
                     | Some m => setSettingsLibraries m (input bi)
                     end in
     if includeUnrelatedContracts then sourceCode vi = prepared
     else ∃ closure,
         closureOf fuel (sourceName artifact) bi = Ret closure ∧
         sourceCode vi
         = setSources (pruneSources (sourceName artifact :: closure)
                         (sources prepared)) prepared) ∧
    address vi = resultAddress r ∧
    compilerVersion vi
    = (if startsWith "v" (solcLongVersion bi) then solcLongVersion bi
       else "v" +:+ solcLongVersion bi) ∧
    name vi = sourceName artifact +:+ ":" +:+ contractName exState ∧
    encodeDeploymentArguments artifact (constructorArgs exState) = Ret (args vi) ∧
    σ' = <[b := {| solcLongVersion := solcLongVersion bi;
                   input := sourceCode vi |}]> σ1.
Proof.
  intros H. unfold convertExStateToVerifyInfo in H.
  apply mbind_Ret_inv in H as (b & σ1 & Hread & H).
  apply mbind_Ret_inv in H as (artifact & σ2 & Hart & H).
  unfold liftO in Hart. injection Hart as Hart <-.
  apply mbind_Ret_inv in H as ([] & σ3 & Hassert & H).
  unfold liftO in Hassert. injection Hassert as Hassert <-.
  apply mbind_Ret_inv in H as (sourceCode & σ4 & Hprep & H).
  apply mbind_Ret_inv in H as ([] & σ5 & Hprune & H).
  apply mbind_Ret_inv in H as (bi5 & σ6 & Hderef & H).
  apply mbind_Ret_inv in H as (serialized & σ7 & Hser & H).
  apply mbind_Ret_inv in H as (encoded & σ8 & Henc & H).
  unfold liftO in Henc. injection Henc as Henc <-.
  unfold mret in H. injection H as <- <-.
  destruct (result exState) as [r|] eqn:Hr; [|done].
  unfold assertIgnitionInvariant in Hassert.
  destruct (bool_decide (resultType r = ExecutionResultType.SUCCESS)) eqn:Hty; [|done].
  apply bool_decide_eq_true in Hty.
  apply prepareInputBasedOn_Ret_inv in Hprep as (-> & resolved & Hres & Hσ4).
  unfold deref in Hderef.
  destruct (σ5 !! b) as [bi5'|] eqn:Hb5; [|done]. injection Hderef as -> <-.
  unfold derefInput, mbind, deref, mret in Hser. rewrite Hb5 in Hser.
  injection Hser as <- <-.
  (* the object at [b] before the conversion wrote to it *)
  assert (∃ bi, σ1 !! b = Some bi ∧
            σ4 = match resolved with
                 | None => σ1
                 | Some m =>
                     <[b := {| solcLongVersion := solcLongVersion bi;
                               input := setSettingsLibraries m (input bi) |}]> σ1
                 end) as (bi & Hb1 & ->).
  { destruct resolved as [m|].
    - destruct Hσ4 as (bi & Hb & ->). by exists bi.
    - subst σ4. destruct includeUnrelatedContracts.
      + unfold mret in Hprune. injection Hprune as <-. by exists bi5.
      + apply mbind_Ret_inv in Hprune as (bi' & σa & Hd & _).
        unfold deref in Hd. destruct (σ1 !! b) as [bi1|]; [|done]. by exists bi1. }
  exists b, σ1, bi, artifact, r, resolved.
  do 6 (split; [done|]).
  set (prepared := match resolved with
                   | None => input bi
                   | Some m => setSettingsLibraries m (input bi)
                   end).
  assert (match resolved with
          | None => σ1
          | Some m =>
              <[b := {| solcLongVersion := solcLongVersion bi;
                        input := setSettingsLibraries m (input bi) |}]> σ1
          end !! b = Some {| solcLongVersion := solcLongVersion bi;
                             input := prepared |}) as Hb4.
  { unfold prepared. destruct resolved as [m|].
    - by rewrite lookup_insert_eq.
    - rewrite Hb1. by destruct bi. }
  assert (match resolved with
          | None => σ1
          | Some m =>
              <[b := {| solcLongVersion := solcLongVersion bi;
                        input := setSettingsLibraries m (input bi) |}]> σ1
          end = <[b := {| solcLongVersion := solcLongVersion bi;
                          input := prepared |}]> σ1) as Hσ4'.
  { unfold prepared. destruct resolved as [m|]; [done|].
    rewrite insert_id; [done|]. rewrite Hb1. by destruct bi. }
  rewrite Hσ4' in *. clear Hσ4' Hσ4.
  destruct includeUnrelatedContracts.
  - unfold mret in Hprune. injection Hprune as <-.
    rewrite Hb4 in Hb5. injection Hb5 as <-. simpl.
    by do 5 (split; [done|]).
  - apply mbind_Ret_inv in Hprune as (bi4 & σa & Hd & Hprune).
    unfold deref in Hd. rewrite Hb4 in Hd. injection Hd as <- <-.
    apply mbind_Ret_inv in Hprune as (closure & σb & Hcl & Hprune).
    unfold liftO in Hcl. injection Hcl as Hcl <-.
    unfold updateInput in Hprune. rewrite Hb4 in Hprune.
    injection Hprune as <-. rewrite lookup_insert_eq in Hb5.
    injection Hb5 as <-. simpl.
    split.
    { exists closure. split; [|done]. rewrite <- Hcl.
      apply closure_sources_only. simpl. unfold prepared.
      by destruct resolved. }
    do 4 (split; [done|]). by rewrite insert_insert_eq.
Qed.

(** When the loads, the check of the result, the library resolution, the
    closure (if it is asked for) and the encoding of the arguments succeed,
    the conversion returns. *)
Lemma convert_returns (fuel : nat) (exState : DeploymentExecutionState)
    (loader : DeploymentLoader) (includeUnrelatedContracts : bool)
    (σ σ1 : Store) (b : loc) (bi : BuildInfo) (artifact : Artifact)
    (r : DeploymentExecutionResult) (resolved : option SourceToLibraryToAddress)
    (encoded : string) :
  readBuildInfo loader (artifactId exState) σ = (Ret b, σ1) →
  σ1 !! b = Some bi →
  loadArtifact loader (artifactId exState) = Ret artifact →
  result exState = Some r → resultType r = ExecutionResultType.SUCCESS →
  resolveLibraryInfoForArtifact artifact (exLibraries exState) = Ret resolved →
  (includeUnrelatedContracts = false →
   ∃ closure, closureOf fuel (sourceName artifact) bi = Ret closure) →
  encodeDeploymentArguments artifact (constructorArgs exState) = Ret encoded →
  ∃ vi σ', convert fuel exState loader includeUnrelatedContracts σ = (Ret vi, σ').
Proof.
  intros Hread Hb Hart Hr Hty Hres Hcl Henc.
  unfold convertExStateToVerifyInfo.
  rewrite (mbind_Ret_step _ _ _ _ _ Hread).
  unfold mbind at 1. unfold liftO at 1. rewrite Hart.
  unfold mbind at 1. unfold liftO at 1. rewrite Hr.
  rewrite bool_decide_eq_true_2 by done. simpl assertIgnitionInvariant. cbv iota.
  assert (∃ σ2 bi2,
            prepareInputBasedOn b artifact (exLibraries exState) σ1
            = (Ret (InputOf b), σ2) ∧
            σ2 !! b = Some bi2 ∧ sources (input bi2) = sources (input bi))
    as (σ2 & bi2 & Hprep & Hb2 & Hsrc).
  { destruct resolved as [m|].
    - eexists _, _. split; [by apply prepareInputBasedOn_some|].
      by rewrite lookup_insert_eq.
    - exists σ1, bi. split; [by apply prepareInputBasedOn_null|done]. }
  rewrite (mbind_Ret_step _ _ _ _ _ Hprep).
  assert (∃ σ3 bi3,
            (if includeUnrelatedContracts then mret tt
             else
               bi0 ←$ deref b;
               imported ←$ liftO (closureOf fuel (sourceName artifact) bi0);
               updateInput (InputOf b)
                 (λ inp, setSources
                           (pruneSources (sourceName artifact :: imported)
                              (sources inp)) inp)) σ2
            = (Ret tt, σ3) ∧ σ3 !! b = Some bi3) as (σ3 & bi3 & Hprune & Hb3).
  { destruct includeUnrelatedContracts.
    - by exists σ2, bi2.
    - destruct (Hcl eq_refl) as [closure Hclosure].
      rewrite (closure_sources_only _ _ _ fuel (sourceName artifact) bi bi2)
        in Hclosure by done.
      eexists _, _. unfold mbind, deref, liftO, updateInput.
      rewrite Hb2, Hclosure, Hb2. split; [done|]. by rewrite lookup_insert_eq. }
  rewrite (mbind_Ret_step _ _ _ _ _ Hprune).
  unfold mbind, deref, derefInput, mbind, deref, mret, liftO.
  rewrite Hb3. simpl. rewrite Hb3. simpl. rewrite Henc. by eexists _, _.
Qed.

End ConvertFacts.

(** *** Conversions on equal objects

    The outcome of a conversion depends on the store through the object
    that it has loaded, and on nothing else in the store. *)









(** C1: the sources of the compiler input that a conversion serialises.
    Without unrelated contracts their paths are the artifact's own file and
    the files that it reaches through one or more imports, as the resolver
    resolves them: all of these and no other path; they are the paths that
    [getImportSourceNames] returned, with the own file, and each is kept
    with its entry of the build's sources.  With unrelated contracts the
    sources are those of the build as loaded.  The conversion does return
    such a [VerifyInfo] when its loads, the check of the record's result,
    the library resolution, the closure, if it is asked for, and the
    encoding of the arguments succeed. *)
Theorem verify_sources_own_file_and_closure
    (analyze : string → list string) (path_join : list string → string)
    (path_dirname : string → string)
    (encodeDeploymentArguments : Artifact → list string → outcome string)
    (fuel : nat) (exState : DeploymentExecutionState) (loader : DeploymentLoader)
    (includeUnrelatedContracts : bool) (σ : Store) :
  let converted :=
    convertExStateToVerifyInfo analyze path_join path_dirname
      encodeDeploymentArguments fuel exState loader includeUnrelatedContracts σ
  in
  (∀ vi σ',
     converted = (Ret vi, σ') →
     ∃ b σ1 bi artifact,
       readBuildInfo loader (artifactId exState) σ = (Ret b, σ1) ∧
       σ1 !! b = Some bi ∧
       loadArtifact loader (artifactId exState) = Ret artifact ∧
       if includeUnrelatedContracts then
         sources (sourceCode vi) = sources (input bi)
       else
         (∀ path,
            is_Some (sources (sourceCode vi) !! path) ↔
            path = sourceName artifact ∨
            tc (importEdge analyze path_join path_dirname bi)
               (sourceName artifact) path) ∧
         (∀ path source,
            sources (sourceCode vi) !! path = Some source →
            sources (input bi) !! path = Some source) ∧
         ∃ closure,
           getImportSourceNames analyze path_join path_dirname fuel
             (sourceName artifact) bi = Ret closure ∧
           dom (sources (sourceCode vi))
           = {[sourceName artifact]} ∪ list_to_set closure) ∧
  (∀ b σ1 bi artifact r encoded,
     readBuildInfo loader (artifactId exState) σ = (Ret b, σ1) →
     σ1 !! b = Some bi →
     loadArtifact loader (artifactId exState) = Ret artifact →
     result exState = Some r → resultType r = ExecutionResultType.SUCCESS →
     (∃ resolved,
        resolveLibraryInfoForArtifact artifact (exLibraries exState)
        = Ret resolved) →
     (includeUnrelatedContracts = false →
      ∃ closure,
        getImportSourceNames analyze path_join path_dirname fuel
          (sourceName artifact) bi = Ret closure) →
     encodeDeploymentArguments artifact (constructorArgs exState) = Ret encoded →
     ∃ vi σ', converted = (Ret vi, σ')).
Proof.
  intros converted. split.
  - intros vi σ' H.
    apply convert_Ret_inv in H
      as (b & σ1 & bi & artifact & r & resolved & Hread & Hart & _ & _ & _ & Hb
          & Hsrc & _).
    exists b, σ1, bi, artifact. do 3 (split; [done|]).
    assert (sources (match resolved with
                     | None => input bi
                     | Some m => setSettingsLibraries m (input bi)
                     end) = sources (input bi)) as Hprep
      by (by destruct resolved).
    simpl in Hsrc. destruct includeUnrelatedContracts.
    + by rewrite Hsrc.
    + destruct Hsrc as (closure & Hcl & ->). simpl. rewrite Hprep.
      assert (dom (pruneSources (sourceName artifact :: closure)
                     (sources (input bi)))
              = {[sourceName artifact]} ∪ list_to_set closure) as Hdom.
      { pose proof Hcl as [Hown Hin]%closure_in_sources.
        rewrite pruneSources_dom; [done|]. by constructor. }
      split; [|split].
      * intros path. rewrite <- elem_of_dom, Hdom, elem_of_union,
          elem_of_singleton, elem_of_list_to_set.
        split; (intros [?|Hpath]; [by left|right]).
        -- by eapply closure_sound.
        -- by eapply closure_complete.
      * intros path source. rewrite pruneSources_lookup.
        by destruct (bool_decide _).
      * by exists closure.
  - intros b σ1 bi artifact r encoded Hread Hb Hart Hr Hty [resolved Hres]
      Hcl Henc.
    by eapply convert_returns.
Qed.

(** The conversion of contracts/A.sol in the build [Fixture.nested], where
    A imports B, and B imports C and E: the sources are the four files. *)
Lemma verify_sources_own_file_and_closure_witness :
  ∃ vi σ',
    Fixture.convert Fixture.nestedLoader 5 Fixture.exNested false ∅
      = (Ret vi, σ') ∧
    dom (sources (sourceCode vi))
    = {["contracts/A.sol"; "contracts/B.sol"; "C.sol"; "D/E.sol"]} ∧
    ∃ b σ1 bi artifact,
      readBuildInfo Fixture.nestedLoader (artifactId Fixture.exNested) ∅
        = (Ret b, σ1) ∧
      σ1 !! b = Some bi ∧
      loadArtifact Fixture.nestedLoader (artifactId Fixture.exNested)
        = Ret artifact ∧
      (∀ path,
         is_Some (sources (sourceCode vi) !! path) ↔
         path = sourceName artifact ∨
         tc (importEdge Fixture.analyze posix.join posix.dirname bi)
            (sourceName artifact) path) ∧
      (∀ path source,
         sources (sourceCode vi) !! path = Some source →
         sources (input bi) !! path = Some source) ∧
      ∃ closure,
        getImportSourceNames Fixture.analyze posix.join posix.dirname 5
          (sourceName artifact) bi = Ret closure ∧
        dom (sources (sourceCode vi))
        = {[sourceName artifact]} ∪ list_to_set closure.
Proof.
  destruct (proj2 (verify_sources_own_file_and_closure Fixture.analyze
                     posix.join posix.dirname Fixture.encode 5 Fixture.exNested
                     Fixture.nestedLoader false ∅)
              (fresh (dom (∅ : Store)))
              {[fresh (dom (∅ : Store)) := Fixture.buildInfoOf Fixture.nested]}
              (Fixture.buildInfoOf Fixture.nested) Fixture.nestedArtifact
              {| resultType := ExecutionResultType.SUCCESS;
                 resultAddress := "0x0a" |} "")
    as (vi & σ' & H).
  - reflexivity.
  - vm_compute. reflexivity.
  - reflexivity.
  - reflexivity.
  - reflexivity.
  - exists None. vm_compute. reflexivity.
  - intros _. eexists. vm_compute. reflexivity.
  - reflexivity.
  - exists vi, σ'. split; [exact H|]. split.
    + change (Fixture.convert Fixture.nestedLoader 5 Fixture.exNested false ∅
              = (Ret vi, σ')) in H.
      vm_compute in H. injection H as <- _. vm_compute. reflexivity.
    + exact (proj1 (verify_sources_own_file_and_closure Fixture.analyze
                      posix.join posix.dirname Fixture.encode 5 Fixture.exNested
                      Fixture.nestedLoader false ∅) vi σ' H).
Defined.

(** ** The pipeline *)

(** The selected records are the successful deployment records of the
    state, in the order in which the state lists them. *)
Lemma successfulDeployments_order (deploymentState : DeploymentState) :
  DeploymentExState <$> successfulDeployments deploymentState
  = filter isSuccessfulDeployment (executionStates deploymentState).
Proof.
  unfold successfulDeployments, findExecutionStatesByType.
  induction (executionStates deploymentState) as [|x l IH]; [done|].
  destruct x as [e|t i st].
  - rewrite filter_cons_True by done. simpl.
    destruct (decide (status e = ExecutionStatus.SUCCESS)) as [He|He].
    + rewrite !filter_cons_True by done. simpl. f_equal. exact IH.
    + rewrite !filter_cons_False by done. exact IH.
  - rewrite (filter_cons_False isSuccessfulDeployment) by (by intros []).
    destruct (decide (t = ExecutionSateType.DEPLOYMENT_EXECUTION_STATE)) as [->|Ht].
    + rewrite filter_cons_True by done. simpl. exact IH.
    + rewrite filter_cons_False by done. exact IH.
Qed.

Lemma successfulDeployments_nil (deploymentState : DeploymentState) :
  (∀ e, DeploymentExState e ∈ executionStates deploymentState →
        status e ≠ ExecutionStatus.SUCCESS) →
  successfulDeployments deploymentState = [].
Proof.
  intros Hnone.
  destruct (successfulDeployments deploymentState) as [|e l] eqn:Hl; [done|].
  assert (DeploymentExState e
            ∈ DeploymentExState <$> successfulDeployments deploymentState) as He
    by (rewrite Hl; left).
  rewrite successfulDeployments_order in He.
  apply list_elem_of_filter in He as [Hs He]. by apply Hnone in He.
Qed.

Section PipelineFacts.

Variable builtinChains : list ChainConfig.
Variable FileDeploymentLoader : string → DeploymentLoader.
Variable loadDeploymentState : DeploymentLoader → option DeploymentState.
Variable analyze : string → list string.
Variable path_join : list string → string.
Variable path_dirname : string → string.
Variable encodeDeploymentArguments : Artifact → list string → outcome string.

Local Abbreviation convert :=
  (convertExStateToVerifyInfo analyze path_join path_dirname
     encodeDeploymentArguments).
Local Abbreviation nextOf :=
  (next builtinChains FileDeploymentLoader loadDeploymentState analyze
     path_join path_dirname encodeDeploymentArguments).
Local Abbreviation consumeOf :=
  (consume builtinChains FileDeploymentLoader loadDeploymentState analyze
     path_join path_dirname encodeDeploymentArguments).

Lemma resolveChainConfig_outcome (deploymentState : DeploymentState)
    (customChains : list ChainConfig) :
  (∃ c, resolveChainConfig builtinChains deploymentState customChains = Ret c) ∨
  resolveChainConfig builtinChains deploymentState customChains
  = Throw (IgnitionError (UNSUPPORTED_CHAIN (stateChainId deploymentState))).
Proof.
  unfold resolveChainConfig. destruct (find _ _) as [c|]; [left; by exists c|by right].
Qed.

(** The first resumption when no record was selected. *)
Lemma next_start_none (fuel : nat) (deploymentDir : string)
    (customChains : list ChainConfig) (includeUnrelatedContracts : bool)
    (deploymentState : DeploymentState) (σ : Store) :
  loadDeploymentState (FileDeploymentLoader deploymentDir) = Some deploymentState →
  successfulDeployments deploymentState = [] →
  nextOf fuel
    (getVerificationInformation deploymentDir customChains
       includeUnrelatedContracts) σ
  = (Throw (IgnitionError
              match resolveChainConfig builtinChains deploymentState customChains with
              | Ret _ => NO_CONTRACTS_DEPLOYED deploymentDir
              | _ => UNSUPPORTED_CHAIN (stateChainId deploymentState)
              end), Completed, σ).
Proof.
  intros Hload Hnil. unfold next, getVerificationInformation. rewrite Hload.
  destruct (resolveChainConfig_outcome deploymentState customChains)
    as [[c Hc]|Hc]; rewrite Hc; [|done].
  fold (successfulDeployments deploymentState). by rewrite Hnil.
Qed.

(** The first resumption when some record was selected: the loop is entered
    with all of them. *)
Lemma next_start_some (fuel : nat) (deploymentDir : string)
    (customChains : list ChainConfig) (includeUnrelatedContracts : bool)
    (deploymentState : DeploymentState) (chainConfig : ChainConfig) (σ : Store) :
  loadDeploymentState (FileDeploymentLoader deploymentDir) = Some deploymentState →
  resolveChainConfig builtinChains deploymentState customChains = Ret chainConfig →
  successfulDeployments deploymentState ≠ [] →
  nextOf fuel
    (getVerificationInformation deploymentDir customChains
       includeUnrelatedContracts) σ
  = nextOf fuel
      (SuspendedYield (FileDeploymentLoader deploymentDir) chainConfig
         includeUnrelatedContracts (successfulDeployments deploymentState)) σ.
Proof.
  intros Hload Hc Hne. unfold next, getVerificationInformation.
  rewrite Hload, Hc. fold (successfulDeployments deploymentState).
  by destruct (successfulDeployments deploymentState).
Qed.

End PipelineFacts.

Section PipelineRuns.

Variable builtinChains : list ChainConfig.
Variable FileDeploymentLoader : string → DeploymentLoader.
Variable loadDeploymentState : DeploymentLoader → option DeploymentState.
Variable analyze : string → list string.
Variable path_join : list string → string.
Variable path_dirname : string → string.
Variable encodeDeploymentArguments : Artifact → list string → outcome string.

Local Abbreviation convert :=
  (convertExStateToVerifyInfo analyze path_join path_dirname
     encodeDeploymentArguments).
Local Abbreviation nextOf :=
  (next builtinChains FileDeploymentLoader loadDeploymentState analyze
     path_join path_dirname encodeDeploymentArguments).
Local Abbreviation consumeOf :=
  (consume builtinChains FileDeploymentLoader loadDeploymentState analyze
     path_join path_dirname encodeDeploymentArguments).

(** A run of the loop over the records still pending. *)
Lemma consume_loop (fuel : nat) (loader : DeploymentLoader)
    (chainConfig : ChainConfig) (includeUnrelatedContracts : bool) (n : nat)
    (pending : list DeploymentExecutionState) (σ σ' : Store)
    (ys : list VerifyResult) (ending : Ending) :
  consumeOf fuel n
    (SuspendedYield loader chainConfig includeUnrelatedContracts pending) σ
  = (ys, ending, σ') →
  Forall2
    (yieldedFor analyze path_join path_dirname encodeDeploymentArguments fuel
       loader chainConfig includeUnrelatedContracts)
    (take (length ys) pending) ys ∧
  (length ys ≤ length pending)%nat ∧
  (ending = Returned → length ys = length pending) ∧
  (ending = Suspended → length ys = n) ∧
  (∀ e, ending = Raised e →
        ∃ exState σa σb,
          pending !! length ys = Some exState ∧
          convert fuel exState loader includeUnrelatedContracts σa = (Throw e, σb)).
Proof.
  revert pending σ σ' ys ending.
  induction n as [|n IH]; intros pending σ σ' ys ending H; simpl in H.
  - injection H as <- <- <-. simpl. repeat split; [constructor|lia|done..].
  - destruct pending as [|exState rest]; simpl in H.
    + injection H as <- <- <-. simpl. repeat split; [constructor|done..].
    + destruct (convert fuel exState loader includeUnrelatedContracts σ)
        as [[vi|e|] σ1] eqn:Hconv.
      * destruct (consumeOf fuel n _ σ1) as [[vs ending'] σ2] eqn:Hrest.
        injection H as <- <- <-.
        apply IH in Hrest as (Hall & Hlen & Hret & Hsus & Hraise).
        simpl. split; [|split; [|split; [|split]]].
        -- constructor; [|done]. split; [done|]. split; [by eauto|].
           apply convert_Ret_inv in Hconv
             as (b & σ0 & bi & artifact & r & resolved & _ & _ & Hr & _ & _ & _
                 & _ & Haddr & _).
           by exists r.
        -- lia.
        -- intros Hend. by rewrite Hret.
        -- intros Hend. by rewrite Hsus.
        -- intros e Hend. apply Hraise in Hend. done.
      * injection H as <- <- <-. simpl.
        split; [constructor|]. split; [lia|]. split; [done|]. split; [done|].
        intros e' [= <-]. by exists exState, σ, σ1.
      * injection H as <- <- <-. simpl.
        split; [constructor|]. split; [lia|]. by repeat split.
Qed.

(** A run depends on the generator only through what its next resumption
    does. *)
Lemma consume_next_eq (fuel n : nat) (g g' : Generator) (σ : Store) :
  nextOf fuel g σ = nextOf fuel g' σ →
  consumeOf fuel (S n) g σ = consumeOf fuel (S n) g' σ.
Proof. intros H. simpl. by rewrite H. Qed.

End PipelineRuns.


(** In the worked deployment A and B name the same build info; B converts
    after A as it does alone, with B.sol as its only source and no
    libraries. *)
Example later_record_in_worked_deployment :
  let afterA := (Fixture.convert Fixture.freshLoader 5 Fixture.exA false ∅).2 in
  ∃ vi σ',
    Fixture.convert Fixture.freshLoader 5 Fixture.exB false afterA
    = (Ret vi, σ') ∧
    (Fixture.convert Fixture.freshLoader 5 Fixture.exB false ∅).1 = Ret vi ∧
    dom (sources (sourceCode vi)) = {["B.sol"]} ∧
    libraries (settings (sourceCode vi)) = None.
Proof.
  intros afterA.
  destruct (Fixture.convert Fixture.freshLoader 5 Fixture.exB false afterA)
    as [[vi|e|] σ'] eqn:H; [|vm_compute in H; discriminate H..].
  exists vi, σ'. split; [reflexivity|].
  vm_compute in H. injection H as <- _.
  split; [vm_compute; reflexivity|]. split; vm_compute; reflexivity.
Qed.

(** C8, the claim as written fails on the code: the chain config is
    resolved before the records are selected.  A deployment state without
    any record, on a chain that neither list knows, loads and makes the
    pipeline fail with UNSUPPORTED_CHAIN, not with NO_CONTRACTS_DEPLOYED. *)
Lemma no_contracts_unknown_chain_counterexample :
  Fixture.states "deployments/unknown-empty" = Some Fixture.stateUnknownEmpty ∧
  successfulDeployments Fixture.stateUnknownEmpty = [] ∧
  Fixture.pipeline Fixture.freshLoader 5 1 "deployments/unknown-empty" [] false ∅
  = ([], Raised (IgnitionError (UNSUPPORTED_CHAIN 424242)), ∅) ∧
  IgnitionError (UNSUPPORTED_CHAIN 424242)
  ≠ IgnitionError (NO_CONTRACTS_DEPLOYED "deployments/unknown-empty").
Proof. repeat split; try (vm_compute; reflexivity). discriminate. Qed.

(** C8, as amended: for a deployment state that loads and holds no
    deployment record with status SUCCESS, the first request to the pipeline
    fails, so that nothing is ever yielded: with NO_CONTRACTS_DEPLOYED when
    the chain id of the state resolves to a chain config, and with
    UNSUPPORTED_CHAIN when it does not. *)
Theorem no_successful_record_fails_before_yield
    (builtinChains : list ChainConfig)
    (FileDeploymentLoader : string → DeploymentLoader)
    (loadDeploymentState : DeploymentLoader → option DeploymentState)
    (analyze : string → list string) (path_join : list string → string)
    (path_dirname : string → string)
    (encodeDeploymentArguments : Artifact → list string → outcome string)
    (fuel : nat) (deploymentDir : string) (customChains : list ChainConfig)
    (includeUnrelatedContracts : bool) (deploymentState : DeploymentState)
    (σ : Store) :
  loadDeploymentState (FileDeploymentLoader deploymentDir) = Some deploymentState →
  (∀ e, DeploymentExState e ∈ executionStates deploymentState →
        status e ≠ ExecutionStatus.SUCCESS) →
  let failure :=
    IgnitionError
      match resolveChainConfig builtinChains deploymentState customChains with
      | Ret _ => NO_CONTRACTS_DEPLOYED deploymentDir
      | _ => UNSUPPORTED_CHAIN (stateChainId deploymentState)
      end in
  next builtinChains FileDeploymentLoader loadDeploymentState analyze path_join
    path_dirname encodeDeploymentArguments fuel
    (getVerificationInformation deploymentDir customChains
       includeUnrelatedContracts) σ
  = (Throw failure, Completed, σ) ∧
  (∀ n, consume builtinChains FileDeploymentLoader loadDeploymentState analyze
          path_join path_dirname encodeDeploymentArguments fuel (S n)
          (getVerificationInformation deploymentDir customChains
             includeUnrelatedContracts) σ
        = ([], Raised failure, σ)) ∧
  ((∃ c, resolveChainConfig builtinChains deploymentState customChains = Ret c) →
   failure = IgnitionError (NO_CONTRACTS_DEPLOYED deploymentDir)).
Proof.
  intros Hload Hnone failure.
  pose proof (next_start_none builtinChains FileDeploymentLoader
                loadDeploymentState analyze path_join path_dirname
                encodeDeploymentArguments fuel deploymentDir customChains
                includeUnrelatedContracts deploymentState σ Hload
                (successfulDeployments_nil deploymentState Hnone)) as Hnext.
  split; [exact Hnext|]. split.
  - intros n. simpl. unfold getVerificationInformation in Hnext.
    unfold next in Hnext. unfold next. by rewrite Hnext.
  - intros [c Hc]. unfold failure. by rewrite Hc.
Qed.

Lemma no_successful_record_fails_before_yield_witness :
  Fixture.states "deployments/none"
  = Some Fixture.stateNone ∧
  (∀ n, Fixture.pipeline Fixture.freshLoader 5 (S n) "deployments/none" [] false ∅
        = ([], Raised (IgnitionError (NO_CONTRACTS_DEPLOYED "deployments/none")),
           ∅)).
Proof.
  split; [reflexivity|]. intros n.
  apply (no_successful_record_fails_before_yield Fixture.builtin
           (λ _, Fixture.freshLoader) (λ _, Fixture.states "deployments/none")
           Fixture.analyze posix.join posix.dirname Fixture.encode 5
           "deployments/none" [] false
           Fixture.stateNone ∅).
  - reflexivity.
  - intros e He. simpl in He.
    apply elem_of_cons in He as [He|He]; [discriminate He|].
    apply list_elem_of_singleton in He. by simplify_eq.
Defined.

(** C9, the claim as written fails on the code: a deployment state with a
    successful deployment record, on a chain that neither list knows, makes
    the pipeline fail with UNSUPPORTED_CHAIN before anything is yielded. *)
Lemma successful_record_unknown_chain_counterexample :
  Fixture.states "deployments/unknown-chain"
  = Some Fixture.stateUnknownChain ∧
  successfulDeployments Fixture.stateUnknownChain
  = [Fixture.exB] ∧
  (∀ n, Fixture.pipeline Fixture.freshLoader 5 (S n) "deployments/unknown-chain"
          [] false ∅
        = ([], Raised (IgnitionError (UNSUPPORTED_CHAIN 424242)), ∅)).
Proof.
  split; [reflexivity|]. split; [vm_compute; reflexivity|].
  intros n. unfold Fixture.pipeline. simpl. vm_compute. reflexivity.
Qed.

(** C9, as amended: for a deployment state that loads, whose chain id
    resolves to a chain config and which holds at least one successful
    deployment record, what a consumer receives is, element by element, the
    chain config paired with the conversion of the successful records, taken
    in the order in which the deployment state lists them; the run covers
    all of them when the pipeline returns, stops short when the consumer
    stops asking, and ends at the first record whose conversion throws. *)
Theorem pipeline_yields_in_record_order
    (builtinChains : list ChainConfig)
    (FileDeploymentLoader : string → DeploymentLoader)
    (loadDeploymentState : DeploymentLoader → option DeploymentState)
    (analyze : string → list string) (path_join : list string → string)
    (path_dirname : string → string)
    (encodeDeploymentArguments : Artifact → list string → outcome string)
    (fuel n : nat) (deploymentDir : string) (customChains : list ChainConfig)
    (includeUnrelatedContracts : bool) (deploymentState : DeploymentState)
    (chainConfig : ChainConfig) (σ σ' : Store) (ys : list VerifyResult)
    (ending : Ending) :
  loadDeploymentState (FileDeploymentLoader deploymentDir) = Some deploymentState →
  resolveChainConfig builtinChains deploymentState customChains = Ret chainConfig →
  successfulDeployments deploymentState ≠ [] →
  consume builtinChains FileDeploymentLoader loadDeploymentState analyze
    path_join path_dirname encodeDeploymentArguments fuel n
    (getVerificationInformation deploymentDir customChains
       includeUnrelatedContracts) σ
  = (ys, ending, σ') →
  DeploymentExState <$> successfulDeployments deploymentState
  = filter isSuccessfulDeployment (executionStates deploymentState) ∧
  Forall2
    (yieldedFor analyze path_join path_dirname encodeDeploymentArguments fuel
       (FileDeploymentLoader deploymentDir) chainConfig includeUnrelatedContracts)
    (take (length ys) (successfulDeployments deploymentState)) ys ∧
  (length ys ≤ length (successfulDeployments deploymentState))%nat ∧
  (ending = Returned → length ys = length (successfulDeployments deploymentState)) ∧
  (ending = Suspended → length ys = n) ∧
  (∀ e, ending = Raised e →
        ∃ exState σa σb,
          successfulDeployments deploymentState !! length ys = Some exState ∧
          convertExStateToVerifyInfo analyze path_join path_dirname
            encodeDeploymentArguments fuel exState
            (FileDeploymentLoader deploymentDir) includeUnrelatedContracts σa
          = (Throw e, σb)).
Proof.
  intros Hload Hc Hne H.
  split; [apply successfulDeployments_order|].
  destruct n as [|n].
  - simpl in H. injection H as <- <- <-. simpl.
    repeat split; [constructor|lia|done..].
  - eapply consume_loop. rewrite <- H. symmetry.
    apply consume_next_eq. by apply next_start_some.
Qed.

(** The worked deployment: B and then A are successful; the run yields B's
    payload and then A's, and returns. *)
Lemma pipeline_yields_in_record_order_witness :
  ∃ ys σ',
    Fixture.pipeline Fixture.freshLoader 5 3 "deployments/two" [] false ∅
      = (ys, Returned, σ') ∧
    successfulDeployments
      Fixture.stateTwo = [Fixture.exB; Fixture.exA] ∧
    (λ y : VerifyResult, (network y.1, name y.2, address y.2)) <$> ys
      = [("mainnet", "B.sol:B", "0x0b"); ("mainnet", "A.sol:A", "0x0a")] ∧
    Forall2
      (yieldedFor Fixture.analyze posix.join posix.dirname Fixture.encode 5
         Fixture.freshLoader Fixture.mainnet false)
      (take (length ys) [Fixture.exB; Fixture.exA]) ys ∧
    length ys = 2%nat.
Proof.
  destruct (Fixture.pipeline Fixture.freshLoader 5 3 "deployments/two" [] false ∅)
    as [[ys ending] σ'] eqn:H.
  assert (ending = Returned) as -> by (vm_compute in H; congruence).
  exists ys, σ'. split; [reflexivity|].
  assert (successfulDeployments
            Fixture.stateTwo = [Fixture.exB; Fixture.exA])
    as Hsel by (vm_compute; reflexivity).
  split; [exact Hsel|]. split.
  { vm_compute in H. injection H as <- _. vm_compute. reflexivity. }
  destruct (pipeline_yields_in_record_order Fixture.builtin
              (λ _, Fixture.freshLoader) (λ _, Fixture.states "deployments/two")
              Fixture.analyze posix.join posix.dirname Fixture.encode 5 3
              "deployments/two" [] false
              Fixture.stateTwo
              Fixture.mainnet ∅ σ' ys Returned)
    as (_ & Hall & _ & Hret & _).
  - reflexivity.
  - vm_compute. reflexivity.
  - rewrite Hsel. discriminate.
  - exact H.
  - rewrite Hsel in Hall, Hret. split; [exact Hall|]. by apply Hret.
Defined.

(** ** Worked evaluations *)

(** [path.posix] on the paths that occur above. *)
Example posix_join_examples :
  posix.join ["."; "./B.sol"] = "B.sol" ∧
  posix.join ["."; "../D/E.sol"] = "../D/E.sol" ∧
  posix.join ["contracts"; "../D/E.sol"] = "D/E.sol" ∧
  posix.join ["contracts"; "..\D\E.sol"] = "contracts/..\D\E.sol" ∧
  posix.join ["a/b/"; "../../../c/"] = "../c/" ∧
  posix.join ["/a"; "../.."] = "/" ∧
  posix.join [""; ""] = ".".
Proof. repeat split; reflexivity. Qed.

Example posix_dirname_examples :
  posix.dirname "A.sol" = "." ∧
  posix.dirname "contracts/sub/A.sol" = "contracts/sub" ∧
  posix.dirname "/A.sol" = "/" ∧
  posix.dirname "a//b" = "a/" ∧
  posix.dirname "/a/" = "/" ∧
  posix.dirname "//a" = "//" ∧
  posix.dirname "" = ".".
Proof. repeat split; reflexivity. Qed.

Example importSource_examples :
  importSource posix.join posix.dirname "contracts/A.sol" "./B.sol"
    = "contracts/B.sol" ∧
  importSource posix.join posix.dirname "contracts/A.sol" ".\B.sol"
    = "contracts/./B.sol" ∧
  importSource posix.join posix.dirname "contracts/A.sol" "@oz/token/ERC20.sol"
    = "@oz/token/ERC20.sol" ∧
  importSource posix.join posix.dirname "contracts/A.sol" ".hidden/B.sol"
    = ".hidden/B.sol".
Proof. repeat split; reflexivity. Qed.

(** A custom entry for chain 1 is preferred to the built-in one. *)
Example resolveChainConfig_custom_mainnet :
  resolveChainConfig Fixture.builtin (Fixture.stateOn 1 [])
    [Fixture.sepolia; Fixture.customMainnet] = Ret Fixture.customMainnet ∧
  resolveChainConfig Fixture.builtin (Fixture.stateOn 1 []) [] = Ret Fixture.mainnet ∧
  resolveChainConfig Fixture.builtin (Fixture.stateOn 5 []) [Fixture.customMainnet]
    = Throw (IgnitionError (UNSUPPORTED_CHAIN 5)).
Proof. repeat split; reflexivity. Qed.

(** Library settings that the build already had are replaced, not merged. *)
Example prepareInputBasedOn_replaces_prior_libraries :
  let prior : BuildInfo :=
    {| solcLongVersion := "v0.8.19";
       input :=
         {| language := "Solidity";
            sources := {["Calc.sol" := Fixture.src "contract Calc {}"]};
            settings :=
              {| libraries := Some {["Old.sol" := {["Old" := JsString "0x111"]}]};
                 otherSettings := "{}" |} |} |} in
  (libraries ∘ settings ∘ input <$>
     (prepareInputBasedOn 1%positive Fixture.mathArtifact {["MathLib" := "0xabc"]}
        {[1%positive := prior]}).2 !! 1%positive)
  = Some (Some {["Lib.sol" := {["MathLib" := JsString "0xabc"]}]}).
Proof. vm_compute. reflexivity. Qed.

(** Names that [Object.prototype] defines, in the library resolver: a
    library named [__proto__] is not stored; a library named [toString]
    without address reads the inherited function; a source path named
    [toString] gets no entry, alone or beside a path that gets one. *)
Example library_resolution_on_prototype_names :
  resolveLibraryInfoForArtifact Fixture.protoArtifact {["__proto__" := "0xabc"]}
  = Ret (Some {["Lib.sol" := ∅]}) ∧
  resolveLibraryInfoForArtifact Fixture.toStringArtifact ∅
  = Ret (Some {["Lib.sol" := {["toString" := JsInherited "toString"]}]}) ∧
  resolveLibraryInfoForArtifact
    {| artifactContractName := "Calc"; sourceName := "Calc.sol"; abi := "[]";
       bytecode := "0x6080";
       linkReferences := {["toString" := {["Lib" := []]}]} |}
    {["Lib" := "0xabc"]}
  = Ret None ∧
  resolveLibraryInfoForArtifact
    {| artifactContractName := "Calc"; sourceName := "Calc.sol"; abi := "[]";
       bytecode := "0x6080";
       linkReferences :=
         {["toString" := {["Lib" := []]}; "Lib.sol" := {["Lib" := []]}]} |}
    {["Lib" := "0xabc"]}
  = Ret (Some {["Lib.sol" := {["Lib" := JsString "0xabc"]}]}).
Proof. vm_compute. repeat split. Qed.

(** The version of the compiler gets its leading v. *)
Example compilerVersion_prefixed :
  compilerVersion <$>
    match (Fixture.convert Fixture.freshLoader 5 Fixture.exB false ∅).1 with
    | Ret vi => Some vi
    | _ => None
    end = Some "v0.8.19+commit.7dd6d404".
Proof. vm_compute. reflexivity. Qed.

(** * Further properties of verify.ts *)

(** ** The import closure as reachability *)

(** X1: a closure that [getImportSourceNames] returns names exactly the
    files that the root reaches through one or more imports, as the
    resolver resolves them; the root itself is not among them. *)
Theorem closure_is_transitive_reachability
    (analyze : string → list string) (path_join : list string → string)
    (path_dirname : string → string) (fuel : nat) (root : string)
    (bi : BuildInfo) (l : list string) :
  getImportSourceNames analyze path_join path_dirname fuel root bi = Ret l →
  (∀ x, x ∈ l ↔ tc (importEdge analyze path_join path_dirname bi) root x) ∧
  root ∉ l.
Proof.
  intros H. split.
  - intros x. split; [by eapply closure_sound|].
    intros Hx. by eapply closure_complete.
  - intros Hroot. eapply closure_cycle_no_result; [|exact H].
    exists root. split; [apply rtc_refl|]. by eapply closure_sound.
Qed.

Lemma closure_is_transitive_reachability_witness :
  (∀ x, x ∈ ["contracts/B.sol"; "C.sol"; "D/E.sol"] ↔
        tc (importEdge Fixture.analyze posix.join posix.dirname
              (Fixture.buildInfoOf Fixture.nested)) "contracts/A.sol" x) ∧
  "contracts/A.sol" ∉ ["contracts/B.sol"; "C.sol"; "D/E.sol"].
Proof.
  apply (closure_is_transitive_reachability Fixture.analyze posix.join
           posix.dirname 3 "contracts/A.sol" (Fixture.buildInfoOf Fixture.nested)).
  vm_compute. reflexivity.
Defined.



(** ** The import test and the resolved imports *)

(** X4: the test [/^\.\.?[\/|\\]/] passes exactly for the strings that begin
    with one or two dots followed by a slash, a backslash or a bar. *)
Theorem import_test_accepts_exactly (i : string) :
  testRelative i = true ↔
  beginsWith "./" i ∨ beginsWith "../" i ∨ beginsWith ".\" i ∨
  beginsWith "..\" i ∨ beginsWith ".|" i ∨ beginsWith "..|" i.
Proof. apply testRelative_iff. Qed.

Lemma replaceAll_removes (pat rep : ascii) (s : string) :
  pat ≠ rep → containsChar pat (replaceAll pat rep s) = false.
Proof.
  intros Hne. induction s as [|c r IH]; simpl; [done|].
  rewrite IH, orb_false_r. destruct (Ascii.eqb c pat) eqn:Hc.
  - apply Ascii.eqb_neq. congruence.
  - done.
Qed.

(** X5: whatever [path.join] and [path.dirname] return, the source name that
    a relative import is resolved to holds no backslash. *)
Theorem resolved_relative_import_has_no_backslash
    (path_join : list string → string) (path_dirname : string → string)
    (sourceName i : string) :
  testRelative i = true →
  containsChar "\" (importSource path_join path_dirname sourceName i) = false.
Proof.
  intros Ht. unfold importSource. rewrite Ht. by apply replaceAll_removes.
Qed.

Lemma resolved_relative_import_has_no_backslash_witness :
  containsChar "\" "..\lib\Math.sol" = true ∧
  containsChar "\"
    (importSource posix.join posix.dirname "contracts/A.sol" "..\lib\Math.sol")
  = false.
Proof.
  split; [reflexivity|].
  apply (resolved_relative_import_has_no_backslash posix.join posix.dirname
           "contracts/A.sol" "..\lib\Math.sol").
  reflexivity.
Defined.

(** ** The chain config resolver and the first request *)

Lemma resolveChainConfig_unsupported_no_match
    (builtinChains customChains : list ChainConfig)
    (deploymentState : DeploymentState) :
  (∀ c, c ∈ customChains ++ builtinChains →
        chainId c ≠ stateChainId deploymentState) →
  resolveChainConfig builtinChains deploymentState customChains
  = Throw (IgnitionError (UNSUPPORTED_CHAIN (stateChainId deploymentState))).
Proof.
  intros Hno. unfold resolveChainConfig.
  destruct (find _ (customChains ++ builtinChains)) as [c|] eqn:Hfind; [|done].
  apply find_Some_first in Hfind as (pre & post & Heq & Hc & _).
  apply bool_decide_eq_true in Hc. destruct (Hno c); [|done].
  rewrite Heq. apply elem_of_app. right. left.
Qed.

(** X6: the resolver fails exactly when no entry of either list has the
    deployment's chain id, and then with UNSUPPORTED_CHAIN for that id; a
    config that it returns has the deployment's chain id and comes from one
    of the two lists. *)
Theorem resolveChainConfig_unsupported_iff
    (builtinChains customChains : list ChainConfig)
    (deploymentState : DeploymentState) :
  (resolveChainConfig builtinChains deploymentState customChains
   = Throw (IgnitionError (UNSUPPORTED_CHAIN (stateChainId deploymentState))) ↔
   ∀ c, c ∈ customChains ++ builtinChains →
        chainId c ≠ stateChainId deploymentState) ∧
  (∀ c, resolveChainConfig builtinChains deploymentState customChains = Ret c →
        chainId c = stateChainId deploymentState ∧
        (c ∈ customChains ∨ c ∈ builtinChains)) ∧
  (∀ e, resolveChainConfig builtinChains deploymentState customChains = Throw e →
        e = IgnitionError (UNSUPPORTED_CHAIN (stateChainId deploymentState))) ∧
  resolveChainConfig builtinChains deploymentState customChains ≠ OutOfFuel.
Proof.
  unfold resolveChainConfig.
  destruct (find _ (customChains ++ builtinChains)) as [c|] eqn:Hfind.
  - apply find_Some_first in Hfind as (pre & post & Heq & Hc & _).
    apply bool_decide_eq_true in Hc.
    assert (c ∈ customChains ++ builtinChains) as Hin.
    { rewrite Heq. apply elem_of_app. right. left. }
    split; [|split; [|split]]; [|by intros c' [= <-]; split;
                                   [|apply elem_of_app]|done..].
    split; [done|]. intros Hall. by destruct (Hall c Hin).
  - apply find_None_all in Hfind. rewrite Forall_forall in Hfind.
    split; [|split; [|split]]; [|done|by intros e [= <-]|done].
    split; [|done]. intros _ c Hc. specialize (Hfind c Hc).
    by apply bool_decide_eq_false in Hfind.
Qed.

(** X7: the failures of the first request come in a fixed order and leave
    the store as it is: without a deployment state the pipeline throws
    UNINITIALIZED_DEPLOYMENT, whatever the chains; with a state on a chain
    that no list knows it throws UNSUPPORTED_CHAIN, whatever the records.  In
    both cases nothing is yielded and the generator is finished. *)
Theorem first_request_failures_in_order
    (builtinChains : list ChainConfig)
    (FileDeploymentLoader : string → DeploymentLoader)
    (loadDeploymentState : DeploymentLoader → option DeploymentState)
    (analyze : string → list string) (path_join : list string → string)
    (path_dirname : string → string)
    (encodeDeploymentArguments : Artifact → list string → outcome string)
    (fuel : nat) (deploymentDir : string) (customChains : list ChainConfig)
    (includeUnrelatedContracts : bool) (σ : Store) :
  let g := getVerificationInformation deploymentDir customChains
             includeUnrelatedContracts in
  let run := pull builtinChains FileDeploymentLoader loadDeploymentState analyze
               path_join path_dirname encodeDeploymentArguments fuel in
  (loadDeploymentState (FileDeploymentLoader deploymentDir) = None →
   ∀ n, run (S n) g σ
        = ([], Raised (IgnitionError (UNINITIALIZED_DEPLOYMENT deploymentDir)),
           Completed, σ)) ∧
  (∀ deploymentState,
     loadDeploymentState (FileDeploymentLoader deploymentDir)
     = Some deploymentState →
     (∀ c, c ∈ customChains ++ builtinChains →
           chainId c ≠ stateChainId deploymentState) →
     ∀ n, run (S n) g σ
          = ([], Raised (IgnitionError
                           (UNSUPPORTED_CHAIN (stateChainId deploymentState))),
             Completed, σ)).
Proof.
  intros g run. split.
  - intros Hnone n. unfold run, g. simpl. by rewrite Hnone.
  - intros deploymentState Hload Hno n. unfold run, g. simpl. rewrite Hload.
    apply (resolveChainConfig_unsupported_no_match builtinChains) in Hno.
    by rewrite Hno.
Qed.

(** ** The generator under its consumer *)

Section GeneratorFacts.

Variable builtinChains : list ChainConfig.
Variable FileDeploymentLoader : string → DeploymentLoader.
Variable analyze : string → list string.
Variable path_join : list string → string.
Variable path_dirname : string → string.
Variable encodeDeploymentArguments : Artifact → list string → outcome string.

Local Abbreviation consumeWith lds :=
  (consume builtinChains FileDeploymentLoader lds analyze path_join path_dirname
     encodeDeploymentArguments).
Local Abbreviation nextWith lds :=
  (next builtinChains FileDeploymentLoader lds analyze path_join path_dirname
     encodeDeploymentArguments).
Local Abbreviation pullWith lds :=
  (pull builtinChains FileDeploymentLoader lds analyze path_join path_dirname
     encodeDeploymentArguments).

(** In the loop, a run of [n] requests looks at the first [n] pending
    records only. *)
Lemma consume_loop_prefix
    (lds1 lds2 : DeploymentLoader → option DeploymentState) (fuel n : nat)
    (loader : DeploymentLoader) (chainConfig : ChainConfig)
    (includeUnrelatedContracts : bool)
    (pending1 pending2 : list DeploymentExecutionState) (σ : Store) :
  take n pending1 = take n pending2 →
  consumeWith lds1 fuel n
    (SuspendedYield loader chainConfig includeUnrelatedContracts pending1) σ
  = consumeWith lds2 fuel n
      (SuspendedYield loader chainConfig includeUnrelatedContracts pending2) σ.
Proof.
  revert pending1 pending2 σ.
  induction n as [|n IH]; intros pending1 pending2 σ Htake; [done|].
  destruct pending1 as [|e1 r1], pending2 as [|e2 r2]; simpl in Htake;
    [done|done|done|].
  injection Htake as <- Htake. simpl.
  destruct (convertExStateToVerifyInfo _ _ _ _ fuel e1 loader _ σ)
    as [[vi|e|] σ1]; [|done..].
  by rewrite (IH r1 r2 σ1 Htake).
Qed.

(** X8: what a consumer that asks for [n] elements receives, and the store
    it leaves, depend on the deployment state only through its chain id and
    its first [n] successful deployment records: records of other kinds,
    unsuccessful ones and successful ones further down the state are never
    looked at. *)
Theorem pipeline_reads_only_requested_records
    (lds1 lds2 : DeploymentLoader → option DeploymentState) (fuel n : nat)
    (deploymentDir : string) (customChains : list ChainConfig)
    (includeUnrelatedContracts : bool) (ds1 ds2 : DeploymentState) (σ : Store) :
  lds1 (FileDeploymentLoader deploymentDir) = Some ds1 →
  lds2 (FileDeploymentLoader deploymentDir) = Some ds2 →
  stateChainId ds1 = stateChainId ds2 →
  take n (successfulDeployments ds1) = take n (successfulDeployments ds2) →
  consumeWith lds1 fuel n
    (getVerificationInformation deploymentDir customChains
       includeUnrelatedContracts) σ
  = consumeWith lds2 fuel n
      (getVerificationInformation deploymentDir customChains
         includeUnrelatedContracts) σ.
Proof.
  intros H1 H2 Hchain Htake. destruct n as [|n]; [done|].
  assert (resolveChainConfig builtinChains ds1 customChains
          = resolveChainConfig builtinChains ds2 customChains) as Hres.
  { unfold resolveChainConfig. by rewrite Hchain. }
  destruct (resolveChainConfig_outcome builtinChains ds2 customChains)
    as [[c Hc]|Hc].
  - destruct (successfulDeployments ds1) as [|e1 r1] eqn:Hs1,
             (successfulDeployments ds2) as [|e2 r2] eqn:Hs2;
      simpl in Htake; [|done|done|].
    + simpl. rewrite H1, H2, Hres, Hc.
      fold (successfulDeployments ds1). fold (successfulDeployments ds2).
      by rewrite Hs1, Hs2.
    + rewrite (consume_next_eq builtinChains FileDeploymentLoader lds1 analyze
                 path_join path_dirname encodeDeploymentArguments fuel n _
                 (SuspendedYield (FileDeploymentLoader deploymentDir) c
                    includeUnrelatedContracts (successfulDeployments ds1)) σ).
      2:{ apply next_start_some; [done|by rewrite Hres|by rewrite Hs1]. }
      rewrite (consume_next_eq builtinChains FileDeploymentLoader lds2 analyze
                 path_join path_dirname encodeDeploymentArguments fuel n _
                 (SuspendedYield (FileDeploymentLoader deploymentDir) c
                    includeUnrelatedContracts (successfulDeployments ds2)) σ).
      2:{ apply next_start_some; [done|done|by rewrite Hs2]. }
      apply consume_loop_prefix. by rewrite Hs1, Hs2.
  - simpl. by rewrite H1, H2, Hres, Hc.
Qed.

(** [consume] is [pull] without the generator. *)
Lemma consume_pull (lds : DeploymentLoader → option DeploymentState)
    (fuel n : nat) (g : Generator) (σ : Store) :
  consumeWith lds fuel n g σ
  = let '(ys, ending, _, σ') := pullWith lds fuel n g σ in (ys, ending, σ').
Proof.
  revert g σ. induction n as [|n IH]; intros g σ; [done|]. simpl.
  destruct (nextWith lds fuel g σ) as [[[[v|]|e|] g'] σ']; [|done..].
  rewrite IH. by destruct (pullWith lds fuel n g' σ') as [[[vs ending] g''] σ''].
Qed.

Lemma next_not_yielded (lds : DeploymentLoader → option DeploymentState)
    (fuel : nat) (g g' : Generator) (σ σ' : Store) (r : outcome IteratorResult) :
  nextWith lds fuel g σ = (r, g', σ') →
  (∀ v, r ≠ Ret (Yielded v)) → g' = Completed.
Proof.
  assert (∀ loader cc flag pending,
            resumeLoop analyze path_join path_dirname encodeDeploymentArguments
              fuel loader cc flag pending σ = (r, g', σ') →
            (∀ v, r ≠ Ret (Yielded v)) → g' = Completed) as Hloop.
  { intros loader cc flag [|e rest]; simpl; [by intros [= <- <- <-]|].
    destruct (convertExStateToVerifyInfo _ _ _ _ fuel e loader flag σ)
      as [[vi|err|] σ1]; intros [= <- <- <-] Hr; [|done..].
    by destruct (Hr (cc, vi)). }
  destruct g as [dir custom flag|loader cc flag pending|]; simpl.
  - destruct (lds (FileDeploymentLoader dir)) as [ds|]; [|by intros [= <- <- <-]].
    destruct (resolveChainConfig builtinChains ds custom) as [cc|e|];
      [|by intros [= <- <- <-]..].
    destruct (length _ =? 0)%nat; [by intros [= <- <- <-]|]. apply Hloop.
  - apply Hloop.
  - by intros [= <- <- <-].
Qed.

(** X10: once a run has ended because the generator returned or threw, the
    generator is finished: every later request reports the end of the
    sequence, converts nothing and leaves the store as it is. *)
Theorem ended_generator_stays_finished
    (lds : DeploymentLoader → option DeploymentState) (fuel n : nat)
    (g g' : Generator) (σ σ' : Store) (ys : list VerifyResult) (ending : Ending) :
  pullWith lds fuel n g σ = (ys, ending, g', σ') →
  ending = Returned ∨ (∃ e, ending = Raised e) →
  g' = Completed ∧
  ∀ m, pullWith lds fuel (S m) g' σ' = ([], Returned, Completed, σ').
Proof.
  intros H Hend.
  assert (g' = Completed) as ->; [|by split].
  revert g σ ys H. induction n as [|n IH]; intros g σ ys H; simpl in H.
  - injection H as <- <- <- <-. by destruct Hend as [|[? ?]].
  - destruct (nextWith lds fuel g σ) as [[r g1] σ1] eqn:Hnext.
    destruct r as [[v|]|e|].
    + destruct (pullWith lds fuel n g1 σ1) as [[[vs ending'] g2] σ2] eqn:Hrest.
      injection H as <- <- <- <-. by eapply IH.
    + injection H as <- <- <- <-. by eapply next_not_yielded.
    + injection H as <- <- <- <-. by eapply next_not_yielded.
    + injection H as <- <- <- <-. by destruct Hend as [|[? ?]].
Qed.

End GeneratorFacts.

Lemma pipeline_reads_only_requested_records_witness :
  consume Fixture.builtin (λ _, Fixture.freshLoader) (λ _, Some Fixture.stateTwo)
    Fixture.analyze posix.join posix.dirname Fixture.encode 5 1
    (getVerificationInformation "deployments/two" [] false) ∅
  = consume Fixture.builtin (λ _, Fixture.freshLoader)
      (λ _, Some (Fixture.stateOn 1 [DeploymentExState Fixture.exB]))
      Fixture.analyze posix.join posix.dirname Fixture.encode 5 1
      (getVerificationInformation "deployments/two" [] false) ∅.
Proof.
  apply (pipeline_reads_only_requested_records Fixture.builtin
           (λ _, Fixture.freshLoader) Fixture.analyze posix.join posix.dirname
           Fixture.encode (λ _, Some Fixture.stateTwo)
           (λ _, Some (Fixture.stateOn 1 [DeploymentExState Fixture.exB]))
           5 1 "deployments/two" [] false Fixture.stateTwo
           (Fixture.stateOn 1 [DeploymentExState Fixture.exB]) ∅);
    reflexivity.
Defined.

Lemma ended_generator_stays_finished_witness :
  ∃ ys g' σ',
    pull Fixture.builtin (λ _, Fixture.freshLoader)
      (λ _, Fixture.states "deployments/two") Fixture.analyze posix.join
      posix.dirname Fixture.encode 5 3
      (getVerificationInformation "deployments/two" [] false) ∅
    = (ys, Returned, g', σ') ∧
    length ys = 2%nat ∧
    g' = Completed ∧
    ∀ m, pull Fixture.builtin (λ _, Fixture.freshLoader)
           (λ _, Fixture.states "deployments/two") Fixture.analyze posix.join
           posix.dirname Fixture.encode 5 (S m) g' σ'
         = ([], Returned, Completed, σ').
Proof.
  destruct (pull Fixture.builtin (λ _, Fixture.freshLoader)
              (λ _, Fixture.states "deployments/two") Fixture.analyze posix.join
              posix.dirname Fixture.encode 5 3
              (getVerificationInformation "deployments/two" [] false) ∅)
    as [[[ys ending] g'] σ'] eqn:H.
  assert (ending = Returned ∧ length ys = 2%nat) as [-> Hlen].
  { vm_compute in H. injection H as <- <- _ _. split; reflexivity. }
  exists ys, g', σ'. split; [reflexivity|]. split; [exact Hlen|].
  apply (ended_generator_stays_finished Fixture.builtin (λ _, Fixture.freshLoader)
           Fixture.analyze posix.join posix.dirname Fixture.encode
           (λ _, Fixture.states "deployments/two") 5 3
           (getVerificationInformation "deployments/two" [] false) g' ∅ σ' ys
           Returned H).
  by left.
Defined.

(** ** The deletion loop *)

(** X11: the deletion loop keeps, with its content, every source whose path
    is listed and deletes every other one; running it again changes
    nothing, and when every path of the sources is listed nothing is
    deleted at all. *)
Theorem pruneSources_keeps_listed_only (sourceNames : list string)
    (srcs : gmap string Source) :
  (∀ path, pruneSources sourceNames srcs !! path
           = if bool_decide (path ∈ sourceNames) then srcs !! path else None) ∧
  pruneSources sourceNames srcs ⊆ srcs ∧
  pruneSources sourceNames (pruneSources sourceNames srcs)
  = pruneSources sourceNames srcs ∧
  ((∀ path, is_Some (srcs !! path) → path ∈ sourceNames) →
   pruneSources sourceNames srcs = srcs).
Proof.
  split; [apply pruneSources_lookup|]. split; [|split].
  - apply map_subseteq_spec. intros path source. rewrite pruneSources_lookup.
    by destruct (bool_decide _).
  - apply map_eq. intros path. rewrite !pruneSources_lookup.
    by destruct (bool_decide _).
  - intros Hall. apply map_eq. intros path. rewrite pruneSources_lookup.
    destruct (bool_decide (path ∈ sourceNames)) eqn:Hin; [done|].
    apply bool_decide_eq_false in Hin.
    destruct (srcs !! path) as [source|] eqn:Hs; [|done].
    destruct Hin. apply Hall. by eexists.
Qed.

(** ** The per-record conversion, further *)

(** X12: without unrelated contracts, the sources that a conversion
    serialises are closed under imports: every import of a file that is kept,
    resolved as [getImportSourceNames] resolves it, is a file that is kept.
    The pruning removes no dependency of the contract. *)
Theorem pruned_sources_closed_under_imports
    (analyze : string → list string) (path_join : list string → string)
    (path_dirname : string → string)
    (encodeDeploymentArguments : Artifact → list string → outcome string)
    (fuel : nat) (exState : DeploymentExecutionState) (loader : DeploymentLoader)
    (σ σ' : Store) (vi : VerifyInfo) :
  convertExStateToVerifyInfo analyze path_join path_dirname
    encodeDeploymentArguments fuel exState loader false σ = (Ret vi, σ') →
  ∀ bi' s t,
    input bi' = sourceCode vi →
    importEdge analyze path_join path_dirname bi' s t →
    is_Some (sources (sourceCode vi) !! t).
Proof.
  intros H bi' s t Hbi' (source & Hs & Ht).
  apply convert_Ret_inv in H
    as (b & σ1 & bi & artifact & r & resolved & _ & _ & _ & _ & _ & _ & Hsrc & _).
  simpl in Hsrc. destruct Hsrc as (closure & Hcl & Hvi).
  assert (sources (sourceCode vi)
          = pruneSources (sourceName artifact :: closure) (sources (input bi)))
    as Hpruned.
  { rewrite Hvi. simpl. by destruct resolved. }
  rewrite Hbi', Hpruned, pruneSources_lookup in Hs.
  destruct (bool_decide (s ∈ sourceName artifact :: closure)) eqn:Hin; [|done].
  apply bool_decide_eq_true in Hin.
  assert (importEdge analyze path_join path_dirname bi s t) as Hedge
    by (by exists source).
  assert (tc (importEdge analyze path_join path_dirname bi)
            (sourceName artifact) t) as Htc.
  { apply elem_of_cons in Hin as [->|Hin]; [by apply tc_once|].
    eapply tc_r; [|exact Hedge]. by eapply closure_sound. }
  pose proof (closure_complete _ _ _ _ _ _ Htc _ _ Hcl) as Htin.
  apply closure_in_sources in Hcl as [_ Hall].
  rewrite Forall_forall in Hall. specialize (Hall t Htin).
  rewrite Hpruned, pruneSources_lookup.
  rewrite bool_decide_eq_true_2; [done|]. by right.
Qed.

Lemma pruned_sources_closed_under_imports_witness :
  ∃ vi σ',
    Fixture.convert Fixture.freshLoader 5 Fixture.exA false ∅ = (Ret vi, σ') ∧
    ∀ bi' s t,
      input bi' = sourceCode vi →
      importEdge Fixture.analyze posix.join posix.dirname bi' s t →
      is_Some (sources (sourceCode vi) !! t).
Proof.
  destruct (Fixture.convert Fixture.freshLoader 5 Fixture.exA false ∅)
    as [[vi|e|] σ'] eqn:H; [|vm_compute in H; discriminate H..].
  exists vi, σ'. split; [reflexivity|].
  exact (pruned_sources_closed_under_imports Fixture.analyze posix.join
           posix.dirname Fixture.encode 5 Fixture.exA Fixture.freshLoader ∅ σ'
           vi H).
Defined.

Lemma keepsBuild_refl (bi : BuildInfo) : keepsBuild bi bi.
Proof. by repeat split. Qed.

Lemma keepsBuildAt_mbind_post {A B} (b : loc) (bi : BuildInfo) (Q : A → Prop)
    (m : M A) (k : A → M B) :
  (∀ σ a σ', m σ = (Ret a, σ') → Q a) →
  keepsBuildAt b bi m → (∀ a, Q a → keepsBuildAt b bi (k a)) →
  keepsBuildAt b bi (mbind m k).
Proof.
  intros HQ Hm Hk σ bi0 Hb Hkeep. unfold mbind.
  destruct (Hm σ bi0 Hb Hkeep) as (bi1 & Hb1 & Hkeep1).
  destruct (m σ) as [[a|e|] σ1] eqn:Hmσ; simpl in *; [|by eauto..].
  exact (Hk a (HQ _ _ _ Hmσ) σ1 bi1 Hb1 Hkeep1).
Qed.

Lemma keepsBuildAt_mbind {A B} (b : loc) (bi : BuildInfo) (m : M A)
    (k : A → M B) :
  keepsBuildAt b bi m → (∀ a, keepsBuildAt b bi (k a)) →
  keepsBuildAt b bi (mbind m k).
Proof.
  intros Hm Hk. apply keepsBuildAt_mbind_post with (Q := λ _, True); auto.
Qed.

Lemma keepsBuildAt_liftO {A} (b : loc) (bi : BuildInfo) (o : outcome A) :
  keepsBuildAt b bi (liftO o).
Proof. intros σ bi0 Hb Hkeep. by exists bi0. Qed.

Lemma keepsBuildAt_mret {A} (b : loc) (bi : BuildInfo) (a : A) :
  keepsBuildAt b bi (mret a).
Proof. intros σ bi0 Hb Hkeep. by exists bi0. Qed.

Lemma keepsBuildAt_deref (b b0 : loc) (bi : BuildInfo) :
  keepsBuildAt b bi (deref b0).
Proof.
  intros σ bi0 Hb Hkeep. exists bi0. unfold deref. by destruct (σ !! b0).
Qed.

Lemma keepsBuildAt_updateInput (b : loc) (bi : BuildInfo)
    (f : CompilerInput → CompilerInput) :
  (∀ inp, language (f inp) = language inp ∧
          otherSettings (settings (f inp)) = otherSettings (settings inp) ∧
          sources (f inp) ⊆ sources inp) →
  keepsBuildAt b bi (updateInput (InputOf b) f).
Proof.
  intros Hf σ bi0 Hb (Hv & Hl & Ho & Hs). unfold updateInput. rewrite Hb. simpl.
  rewrite lookup_insert_eq. eexists. split; [done|].
  destruct (Hf (input bi0)) as (Hl' & Ho' & Hs').
  repeat split; simpl; [done|congruence|congruence|by etrans].
Qed.

(** X13: whatever its outcome, a conversion leaves at the loaded
    [BuildInfo] an object with the compiler version, the language and the
    other settings it was loaded with, and with sources that are among the
    loaded ones, content included: it only ever sets the libraries of the
    settings and deletes sources. *)
Theorem convert_only_sets_libraries_and_deletes_sources
    (analyze : string → list string) (path_join : list string → string)
    (path_dirname : string → string)
    (encodeDeploymentArguments : Artifact → list string → outcome string)
    (fuel : nat) (exState : DeploymentExecutionState) (loader : DeploymentLoader)
    (includeUnrelatedContracts : bool) (σ σ1 : Store) (b : loc) (bi : BuildInfo) :
  readBuildInfo loader (artifactId exState) σ = (Ret b, σ1) →
  σ1 !! b = Some bi →
  ∃ bi',
    (convertExStateToVerifyInfo analyze path_join path_dirname
       encodeDeploymentArguments fuel exState loader includeUnrelatedContracts
       σ).2 !! b = Some bi' ∧
    keepsBuild bi bi'.
Proof.
  intros Hread Hb. unfold convertExStateToVerifyInfo.
  unfold mbind at 1. rewrite Hread.
  match goal with |- ∃ _, (?m σ1).2 !! _ = _ ∧ _ =>
    assert (keepsBuildAt b bi m) as Hkeep end;
    [|exact (Hkeep σ1 bi Hb (keepsBuild_refl bi))].
  apply keepsBuildAt_mbind; [apply keepsBuildAt_liftO|]. intros artifact.
  apply keepsBuildAt_mbind; [apply keepsBuildAt_liftO|]. intros _.
  apply keepsBuildAt_mbind_post with (Q := λ r, r = InputOf b).
  - intros σ0 r σ0' H. by apply prepareInputBasedOn_Ret_inv in H as [-> _].
  - unfold prepareInputBasedOn.
    apply keepsBuildAt_mbind; [apply keepsBuildAt_liftO|]. intros [m|].
    + apply keepsBuildAt_mbind; [|intros; apply keepsBuildAt_mret].
      apply keepsBuildAt_updateInput. intros inp. by repeat split.
    + apply keepsBuildAt_mret.
  - intros r ->. apply keepsBuildAt_mbind.
    + destruct includeUnrelatedContracts; [apply keepsBuildAt_mret|].
      apply keepsBuildAt_mbind; [apply keepsBuildAt_deref|]. intros bi0.
      apply keepsBuildAt_mbind; [apply keepsBuildAt_liftO|]. intros imported.
      apply keepsBuildAt_updateInput. intros inp. repeat split. simpl.
      apply map_subseteq_spec. intros path source. rewrite pruneSources_lookup.
      by destruct (bool_decide _).
    + intros _. apply keepsBuildAt_mbind; [apply keepsBuildAt_deref|]. intros bi0.
      apply keepsBuildAt_mbind.
      { unfold derefInput. apply keepsBuildAt_mbind; [apply keepsBuildAt_deref|].
        intros. apply keepsBuildAt_mret. }
      intros serialized.
      apply keepsBuildAt_mbind; [apply keepsBuildAt_liftO|]. intros encoded.
      apply keepsBuildAt_mret.
Qed.

Lemma convert_only_sets_libraries_and_deletes_sources_witness :
  ∃ bi',
    (Fixture.convert Fixture.freshLoader 5 Fixture.exA false ∅).2
      !! fresh (dom (∅ : Store)) = Some bi' ∧
    keepsBuild Fixture.deployed bi'.
Proof.
  apply (convert_only_sets_libraries_and_deletes_sources Fixture.analyze
           posix.join posix.dirname Fixture.encode 5 Fixture.exA
           Fixture.freshLoader false ∅
           (<[fresh (dom (∅ : Store)) := Fixture.deployed]> ∅)
           (fresh (dom (∅ : Store))) Fixture.deployed).
  - reflexivity.
  - apply lookup_insert_eq.
Defined.

(** X14: the compiler version of a [VerifyInfo] always starts with [v]: it
    is the version of the loaded build, as it is when that starts with [v]
    and behind a [v] otherwise. *)
Theorem compilerVersion_starts_with_v
    (analyze : string → list string) (path_join : list string → string)
    (path_dirname : string → string)
    (encodeDeploymentArguments : Artifact → list string → outcome string)
    (fuel : nat) (exState : DeploymentExecutionState) (loader : DeploymentLoader)
    (includeUnrelatedContracts : bool) (σ σ' : Store) (vi : VerifyInfo) :
  convertExStateToVerifyInfo analyze path_join path_dirname
    encodeDeploymentArguments fuel exState loader includeUnrelatedContracts σ
    = (Ret vi, σ') →
  startsWith "v" (compilerVersion vi) = true ∧
  ∃ b σ1 bi,
    readBuildInfo loader (artifactId exState) σ = (Ret b, σ1) ∧
    σ1 !! b = Some bi ∧
    (startsWith "v" (solcLongVersion bi) = true →
     compilerVersion vi = solcLongVersion bi) ∧
    (startsWith "v" (solcLongVersion bi) = false →
     compilerVersion vi = "v" +:+ solcLongVersion bi).
Proof.
  intros H.
  apply convert_Ret_inv in H
    as (b & σ1 & bi & artifact & r & resolved & Hread & _ & _ & _ & _ & Hb & _
        & _ & Hcv & _).
  split.
  - rewrite Hcv.
    destruct (startsWith "v" (solcLongVersion bi)) eqn:Hv; [exact Hv|].
    by destruct (solcLongVersion bi).
  - exists b, σ1, bi. do 2 (split; [done|]).
    rewrite Hcv. split; by intros ->.
Qed.

Lemma compilerVersion_starts_with_v_witness :
  ∃ vi σ',
    Fixture.convert Fixture.freshLoader 5 Fixture.exB false ∅ = (Ret vi, σ') ∧
    compilerVersion vi = "v0.8.19+commit.7dd6d404" ∧
    startsWith "v" (compilerVersion vi) = true.
Proof.
  destruct (Fixture.convert Fixture.freshLoader 5 Fixture.exB false ∅)
    as [[vi|e|] σ'] eqn:H; [|vm_compute in H; discriminate H..].
  exists vi, σ'. split; [reflexivity|]. split.
  - vm_compute in H. injection H as <- _. reflexivity.
  - exact (proj1 (compilerVersion_starts_with_v Fixture.analyze posix.join
                    posix.dirname Fixture.encode 5 Fixture.exB
                    Fixture.freshLoader false ∅ σ' vi H)).
Defined.

(** X15: a record whose result is missing, or is not of type SUCCESS, is
    rejected once its build info and artifact are loaded, with the invariant
    error that names the record's id, and before anything is written: the
    store is the one the loader left. *)
Theorem unsuccessful_result_rejected_before_any_write
    (analyze : string → list string) (path_join : list string → string)
    (path_dirname : string → string)
    (encodeDeploymentArguments : Artifact → list string → outcome string)
    (fuel : nat) (exState : DeploymentExecutionState) (loader : DeploymentLoader)
    (includeUnrelatedContracts : bool) (σ σ1 : Store) (b : loc)
    (artifact : Artifact) :
  readBuildInfo loader (artifactId exState) σ = (Ret b, σ1) →
  loadArtifact loader (artifactId exState) = Ret artifact →
  (∀ r, result exState = Some r → resultType r ≠ ExecutionResultType.SUCCESS) →
  convertExStateToVerifyInfo analyze path_join path_dirname
    encodeDeploymentArguments fuel exState loader includeUnrelatedContracts σ
  = (Throw (IgnitionInvariantError
              ("Deployment execution state " +:+ id exState +:+
               " should have a successful result to retrieve address")), σ1).
Proof.
  intros Hread Hart Hres. unfold convertExStateToVerifyInfo.
  unfold mbind at 1. rewrite Hread.
  unfold mbind at 1. unfold liftO at 1. rewrite Hart.
  unfold mbind at 1. unfold liftO at 1.
  destruct (result exState) as [r|]; [|done].
  by rewrite bool_decide_eq_false_2 by (by apply Hres).
Qed.

Lemma unsuccessful_result_rejected_before_any_write_witness :
  Fixture.convert Fixture.freshLoader 5 Fixture.exFailed false ∅
  = (Throw (IgnitionInvariantError
              "Deployment execution state Mod#F should have a successful result to retrieve address"),
     <[fresh (dom (∅ : Store)) := Fixture.deployed]> ∅).
Proof.
  apply (unsuccessful_result_rejected_before_any_write Fixture.analyze posix.join
           posix.dirname Fixture.encode 5 Fixture.exFailed Fixture.freshLoader
           false ∅ (<[fresh (dom (∅ : Store)) := Fixture.deployed]> ∅)
           (fresh (dom (∅ : Store))) Fixture.artifactB).
  - reflexivity.
  - reflexivity.
  - intros r Hr. discriminate Hr.
Defined.

(** X16: with unrelated contracts included the import closure is never
    computed, so that the conversion does not depend on the fuel (cyclic
    imports are no obstacle); and when, besides, the link references name
    no library, the conversion writes nothing: the store is the one the
    loader left, whatever the outcome. *)
Theorem conversion_with_unrelated_contracts
    (analyze : string → list string) (path_join : list string → string)
    (path_dirname : string → string)
    (encodeDeploymentArguments : Artifact → list string → outcome string)
    (exState : DeploymentExecutionState) (loader : DeploymentLoader) (σ : Store) :
  (∀ fuel fuel',
     convertExStateToVerifyInfo analyze path_join path_dirname
       encodeDeploymentArguments fuel exState loader true σ
     = convertExStateToVerifyInfo analyze path_join path_dirname
         encodeDeploymentArguments fuel' exState loader true σ) ∧
  (∀ fuel b σ1 artifact,
     readBuildInfo loader (artifactId exState) σ = (Ret b, σ1) →
     loadArtifact loader (artifactId exState) = Ret artifact →
     (∀ s refObj, linkReferences artifact !! s = Some refObj → refObj = ∅) →
     (convertExStateToVerifyInfo analyze path_join path_dirname
        encodeDeploymentArguments fuel exState loader true σ).2 = σ1).
Proof.
  split; [reflexivity|].
  intros fuel b σ1 artifact Hread Hart Hhollow.
  assert (resolveLibraryInfoForArtifact artifact (exLibraries exState) = Ret None)
    as Hnull.
  { by apply resolveLibraryInfoForArtifact_hollow. }
  unfold convertExStateToVerifyInfo.
  unfold mbind at 1. rewrite Hread.
  unfold mbind at 1. unfold liftO at 1. rewrite Hart.
  unfold mbind at 1. unfold liftO at 1.
  destruct (assertIgnitionInvariant _ _) as [[]|e|]; [|done..].
  unfold mbind at 1. rewrite (prepareInputBasedOn_null b artifact _ σ1 Hnull).
  unfold mbind at 1. unfold mret at 1.
  unfold mbind at 1. unfold deref at 1.
  destruct (σ1 !! b) as [bi|] eqn:Hb; [|done].
  unfold mbind at 1. unfold derefInput, mbind, deref, mret. rewrite Hb.
  unfold liftO. by destruct (encodeDeploymentArguments _ _).
Qed.

(** ** The library address resolver, further *)

Lemma foldr_ext_in {A B} (f g : A → B → B) (b : B) (l : list A) :
  (∀ x acc, x ∈ l → f x acc = g x acc) → foldr f b l = foldr g b l.
Proof.
  induction l as [|x l IH]; intros Hfg; simpl; [done|].
  rewrite IH by (intros y acc Hy; apply Hfg; by right).
  apply Hfg. by left.
Qed.

(** X17: library resolution reads the deployment's libraries at the names
    that the link references mention and nowhere else: two mappings that
    agree on those names give the same result, be it a mapping, null or the
    invariant failure. *)
Theorem library_resolution_reads_referenced_names_only (artifact : Artifact)
    (libs1 libs2 : gmap string string) :
  (∀ s refObj l, linkReferences artifact !! s = Some refObj →
                 is_Some (refObj !! l) → libs1 !! l = libs2 !! l) →
  resolveLibraryInfoForArtifact artifact libs1
  = resolveLibraryInfoForArtifact artifact libs2.
Proof.
  intros Hagree. unfold resolveLibraryInfoForArtifact. f_equal.
  rewrite !map_fold_foldr. apply foldr_ext_in.
  intros [s refObj] acc Hin. apply elem_of_map_to_list in Hin. simpl.
  rewrite !map_fold_foldr. apply foldr_ext_in.
  intros [l refs] acc' Hin'. apply elem_of_map_to_list in Hin'. simpl.
  destruct acc' as [a|e|]; simpl; [|done..].
  unfold resolveLibrary, getProperty.
  by rewrite (Hagree s refObj l Hin) by (by eexists).
Qed.

Lemma library_resolution_reads_referenced_names_only_witness :
  resolveLibraryInfoForArtifact Fixture.mathArtifact {["MathLib" := "0xabc"]}
  = resolveLibraryInfoForArtifact Fixture.mathArtifact
      (<["Unused" := "0xdef"]> {["MathLib" := "0xabc"]}).
Proof.
  apply (library_resolution_reads_referenced_names_only Fixture.mathArtifact
           {["MathLib" := "0xabc"]}
           (<["Unused" := "0xdef"]> {["MathLib" := "0xabc"]})).
  intros s refObj l Hs Hl. simpl in Hs.
  apply lookup_singleton_Some in Hs as [<- <-].
  destruct Hl as [x Hl]. apply lookup_singleton_Some in Hl as [<- _].
  reflexivity.
Defined.

(** ** The closure and the files it does not reach *)

Lemma closure_agree (analyze : string → list string)
    (path_join : list string → string) (path_dirname : string → string)
    (fuel : nat) (s : string) (bi bi' : BuildInfo) (l : list string) :
  getImportSourceNames analyze path_join path_dirname fuel s bi = Ret l →
  (∀ x, x = s ∨ x ∈ l → sources (input bi') !! x = sources (input bi) !! x) →
  getImportSourceNames analyze path_join path_dirname fuel s bi' = Ret l.
Proof.
  revert s l. induction fuel as [|fuel IH]; intros s l H Hagree; [done|].
  apply closure_Ret_inv in H as (f0 & source & nested & [= <-] & Hs & Hn & ->).
  simpl. rewrite (Hagree s) by (by left). rewrite Hs.
  assert (omapM (λ i, getImportSourceNames analyze path_join path_dirname fuel
                        i bi')
            (map (importSource path_join path_dirname s)
               (analyze (content source))) = Ret nested) as ->; [|done].
  apply omapM_Ret. apply Forall2_same_length_lookup.
  split; [by eapply Forall2_length|].
  intros k i r Hi Hr.
  destruct (Forall2_lookup_l _ _ _ _ _ Hn Hi) as (r' & Hr' & Hir).
  assert (r' = r) as -> by congruence.
  apply IH; [done|]. intros x [->|Hx]; apply Hagree; right; apply elem_of_app.
  - left. apply list_elem_of_lookup. by exists k.
  - right. apply elem_of_concat_lists. exists r. split; [done|].
    apply list_elem_of_lookup. by exists k.
Qed.

(** X18: a closure that is returned depends on the build only through the
    root and the files it names: on any other build that has the same
    entries for these, files added, removed or changed elsewhere
    notwithstanding, the same closure is returned. *)
Theorem closure_depends_on_reached_files_only
    (analyze : string → list string) (path_join : list string → string)
    (path_dirname : string → string) (fuel : nat) (root : string)
    (bi bi' : BuildInfo) (l : list string) :
  getImportSourceNames analyze path_join path_dirname fuel root bi = Ret l →
  (∀ x, x = root ∨ x ∈ l →
        sources (input bi') !! x = sources (input bi) !! x) →
  getImportSourceNames analyze path_join path_dirname fuel root bi' = Ret l.
Proof. apply closure_agree. Qed.

Lemma closure_depends_on_reached_files_only_witness :
  Fixture.closure 3 "contracts/A.sol"
    (Fixture.nested ++ [("Unrelated.sol", "import './Missing.sol';")])
  = Ret ["contracts/B.sol"; "C.sol"; "D/E.sol"].
Proof.
  apply (closure_depends_on_reached_files_only Fixture.analyze posix.join
           posix.dirname 3 "contracts/A.sol" (Fixture.buildInfoOf Fixture.nested)
           (Fixture.buildInfoOf
              (Fixture.nested ++ [("Unrelated.sol", "import './Missing.sol';")]))).
  - vm_compute. reflexivity.
  - intros x [->|Hx]; [vm_compute; reflexivity|].
    repeat (apply elem_of_cons in Hx as [->|Hx]; [vm_compute; reflexivity|]).
    by apply elem_of_nil in Hx.
Defined.

(** ** Converting a record again *)

Lemma pruneSources_idemp (sourceNames : list string) (srcs : gmap string Source) :
  pruneSources sourceNames (pruneSources sourceNames srcs)
  = pruneSources sourceNames srcs.
Proof.
  apply map_eq. intros path. rewrite !pruneSources_lookup.
  by destruct (bool_decide _).
Qed.

(** X19: with a loader that hands out the object it handed out before, and
    writes nothing itself, converting a record a second time, from the
    object that its first conversion left, returns the same [VerifyInfo] and
    leaves the store as it is: the libraries set and the sources deleted by
    the first conversion do not disturb the second. *)
Theorem conversion_repeats_on_its_own_output
    (analyze : string → list string) (path_join : list string → string)
    (path_dirname : string → string)
    (encodeDeploymentArguments : Artifact → list string → outcome string)
    (fuel : nat) (exState : DeploymentExecutionState) (loader : DeploymentLoader)
    (includeUnrelatedContracts : bool) (σ σ' : Store) (b : loc)
    (vi : VerifyInfo) :
  readBuildInfo loader (artifactId exState) σ = (Ret b, σ) →
  readBuildInfo loader (artifactId exState) σ' = (Ret b, σ') →
  convertExStateToVerifyInfo analyze path_join path_dirname
    encodeDeploymentArguments fuel exState loader includeUnrelatedContracts σ
    = (Ret vi, σ') →
  convertExStateToVerifyInfo analyze path_join path_dirname
    encodeDeploymentArguments fuel exState loader includeUnrelatedContracts σ'
    = (Ret vi, σ').
Proof.
  intros Hread Hread' H.
  apply convert_Ret_inv in H
    as (b0 & σ1 & bi & artifact & r & resolved & Hread0 & Hart & Hr & Hty & Hres
        & Hb & Hsrc & Haddr & Hcv & Hname & Henc & Hσ').
  rewrite Hread in Hread0. injection Hread0 as <- <-.
  set (bi1 := {| solcLongVersion := solcLongVersion bi;
                 input := sourceCode vi |}) in *.
  assert (σ' !! b = Some bi1) as Hb' by (by rewrite Hσ', lookup_insert_eq).
  assert (∀ inp, <[b := {| solcLongVersion := solcLongVersion bi;
                           input := inp |}]> σ' 
                 = <[b := {| solcLongVersion := solcLongVersion bi;
                             input := inp |}]> σ) as Hins
    by (intros inp; by rewrite Hσ', insert_insert_eq).
  (* the input that the first conversion prepared *)
  set (prepared := match resolved with
                   | None => input bi
                   | Some m => setSettingsLibraries m (input bi)
                   end) in *.
  assert (match resolved with
          | None => True
          | Some m => setSettingsLibraries m (sourceCode vi) = sourceCode vi
          end) as Hlibs.
  { destruct resolved as [m|]; [|done]. simpl in Hsrc.
    destruct includeUnrelatedContracts.
    - by rewrite Hsrc.
    - destruct Hsrc as (closure & _ & ->). done. }
  assert (prepareInputBasedOn b artifact (exLibraries exState) σ'
          = (Ret (InputOf b), σ')) as Hprep.
  { destruct resolved as [m|].
    - rewrite (prepareInputBasedOn_some b artifact _ σ' bi1 m Hres Hb').
      f_equal. simpl. rewrite Hlibs, Hins. symmetry. exact Hσ'.
    - by apply prepareInputBasedOn_null. }
  unfold convertExStateToVerifyInfo.
  unfold mbind at 1. rewrite Hread'.
  unfold mbind at 1. unfold liftO at 1. rewrite Hart.
  unfold mbind at 1. unfold liftO at 1. rewrite Hr.
  rewrite bool_decide_eq_true_2 by done. simpl assertIgnitionInvariant.
  unfold mbind at 1. rewrite Hprep.
  assert (vi = {| address := resultAddress r;
                  compilerVersion :=
                    if startsWith "v" (solcLongVersion bi1)
                    then solcLongVersion bi1 else "v" +:+ solcLongVersion bi1;
                  sourceCode := sourceCode vi;
                  name := sourceName artifact +:+ ":" +:+ contractName exState;
                  args := args vi |}) as Hvi.
  { destruct vi. simpl in *. by subst. }
  destruct includeUnrelatedContracts.
  - unfold mbind at 1. unfold mret at 1.
    unfold mbind at 1. unfold deref at 1. rewrite Hb'.
    unfold mbind at 1. unfold derefInput, mbind, deref, mret. rewrite Hb'.
    unfold liftO. rewrite Henc.
    exact (f_equal (λ v, (Ret v, σ')) (eq_sym Hvi)).
  - simpl in Hsrc. destruct Hsrc as (closure & Hcl & Hsc).
    assert (sources (sourceCode vi)
            = pruneSources (sourceName artifact :: closure) (sources (input bi)))
      as Hpruned.
    { rewrite Hsc. simpl. unfold prepared. by destruct resolved. }
    assert (getImportSourceNames analyze path_join path_dirname fuel
              (sourceName artifact) bi1 = Ret closure) as Hcl'.
    { eapply closure_agree; [exact Hcl|]. intros x Hx. simpl.
      rewrite Hpruned, pruneSources_lookup.
      rewrite bool_decide_eq_true_2; [done|].
      destruct Hx as [->|Hx]; [by left|by right]. }
    assert (setSources
              (pruneSources (sourceName artifact :: closure)
                 (sources (sourceCode vi))) (sourceCode vi) = sourceCode vi)
      as Hsame.
    { rewrite Hpruned, pruneSources_idemp, <- Hpruned.
      by destruct (sourceCode vi). }
    unfold mbind at 1. unfold mbind at 1. unfold deref at 1. rewrite Hb'.
    unfold mbind at 1. unfold liftO at 1. rewrite Hcl'.
    unfold updateInput at 1. rewrite Hb'. simpl input. rewrite Hsame.
    rewrite Hins. replace (<[b := _]> σ) with σ' by exact Hσ'.
    unfold mbind at 1. unfold deref at 1. rewrite Hb'.
    unfold mbind at 1. unfold derefInput, mbind, deref, mret. rewrite Hb'.
    unfold liftO. rewrite Henc.
    exact (f_equal (λ v, (Ret v, σ')) (eq_sym Hvi)).
Qed.

Lemma conversion_repeats_on_its_own_output_witness :
  ∃ vi σ',
    Fixture.convert Fixture.sharingLoader 5 Fixture.exA false Fixture.store1
      = (Ret vi, σ') ∧
    Fixture.convert Fixture.sharingLoader 5 Fixture.exA false σ' = (Ret vi, σ').
Proof.
  destruct (Fixture.convert Fixture.sharingLoader 5 Fixture.exA false
              Fixture.store1) as [[vi|e|] σ'] eqn:H;
    [|vm_compute in H; discriminate H..].
  exists vi, σ'. split; [reflexivity|].
  by apply (conversion_repeats_on_its_own_output Fixture.analyze posix.join
              posix.dirname Fixture.encode 5 Fixture.exA Fixture.sharingLoader
              false Fixture.store1 σ' 1%positive vi).
Defined.
